(** * backuptool.py — a content-addressed snapshot store kept in SQLite

    The development embeds [BackupTool] (src/backuptool.py): the three
    relations created by [_init_db], the SQL statements issued by each
    method, the transaction discipline of [with self._connect() as conn],
    and the part of the file system the methods read and write.  *)

From Stdlib Require Import ZArith String List Bool Lia.
From stdpp Require Import gmap strings list fin_maps pretty sorting.

Open Scope string_scope.
Open Scope list_scope.
Open Scope Z_scope.

(** ** Data *)

Abbreviation bytes := (list Byte.byte).
Abbreviation digest := string.

(** A path is the list of its components below the root; [[]] is ["/"].
    The [path] column of [files] holds [str] of a relative path; it is kept
    here as the component list that [Path] parses it back into. *)
Abbreviation path := (list string).

#[global] Instance byte_eq_dec : EqDecision Byte.byte := Byte.byte_eq_dec.

Inductive entry :=
| RegularFile (content : bytes)
| Directory.

#[global] Instance entry_eq_dec : EqDecision entry.
Proof. solve_decision. Defined.

Abbreviation filesystem := (gmap path entry).

(** Rows of [snapshots], [files] and [file_data] (backuptool.py:28-52). *)
Record snapshot_row := { s_id : Z; s_timestamp : string }.
Record file_row :=
  { f_snapshot_id : Z; f_path : path; f_hash : digest; f_size : Z }.
Record blob_row := { b_hash : digest; b_content : bytes; b_size : Z }.

#[global] Instance snapshot_row_eq_dec : EqDecision snapshot_row.
Proof. solve_decision. Defined.
#[global] Instance file_row_eq_dec : EqDecision file_row.
Proof. solve_decision. Defined.
#[global] Instance blob_row_eq_dec : EqDecision blob_row.
Proof. solve_decision. Defined.

(** The database file.  Tables are kept in rowid order.  [sqlite_sequence]
    is the counter SQLite keeps for the AUTOINCREMENT key of [snapshots]:
    the largest id ever allocated. *)
Record database := {
  snapshots : list snapshot_row;
  sqlite_sequence : Z;
  files : list file_row;
  file_data : list blob_row }.

#[global] Instance database_eq_dec : EqDecision database.
Proof. solve_decision. Defined.

Definition empty_database : database :=
  {| snapshots := []; sqlite_sequence := 0; files := []; file_data := [] |}.

(** SQLite integers are 64-bit and signed; so are rowids. *)
Definition INT64_MAX : Z := 9223372036854775807.
Definition INT64_MIN : Z := - INT64_MAX - 1.
Definition MAX_ROWID : Z := INT64_MAX.

(** ** SQL statements that write, and their effect on the relations *)

Inductive statement :=
| InsertSnapshot (r : snapshot_row)
| InsertFile (r : file_row)
| InsertFileData (r : blob_row)
| DeleteSnapshot (id : Z)
| DeleteFiles (id : Z)
| Commit
| Rollback.

#[global] Instance statement_eq_dec : EqDecision statement.
Proof. solve_decision. Defined.

Definition max_id (l : list snapshot_row) : Z :=
  foldr Z.max 0 (s_id <$> l).

(** [DELETE FROM snapshots] cascades to [files]
    (ON DELETE CASCADE, foreign keys are switched on by [_connect]). *)
Definition apply_statement (st : statement) (db : database) : database :=
  match st with
  | InsertSnapshot r =>
      {| snapshots := snapshots db ++ [r];
         sqlite_sequence := Z.max (sqlite_sequence db) (s_id r);
         files := files db; file_data := file_data db |}
  | InsertFile r =>
      {| snapshots := snapshots db; sqlite_sequence := sqlite_sequence db;
         files := files db ++ [r]; file_data := file_data db |}
  | InsertFileData r =>
      {| snapshots := snapshots db; sqlite_sequence := sqlite_sequence db;
         files := files db; file_data := file_data db ++ [r] |}
  | DeleteSnapshot id =>
      {| snapshots := filter (λ r, s_id r ≠ id) (snapshots db);
         sqlite_sequence := sqlite_sequence db;
         files := filter (λ r, f_snapshot_id r ≠ id) (files db);
         file_data := file_data db |}
  | DeleteFiles id =>
      {| snapshots := snapshots db; sqlite_sequence := sqlite_sequence db;
         files := filter (λ r, f_snapshot_id r ≠ id) (files db);
         file_data := file_data db |}
  | Commit | Rollback => db
  end.

(** ** The world a method runs in *)

Inductive exception :=
| DatabaseError     (* SQLITE_FULL: the rowids of [snapshots] are used up *)
| IntegrityError    (* UNIQUE or FOREIGN KEY constraint failed *)
| OperationalError  (* integer overflow in SUM *)
| OSError.          (* FileExistsError, NotADirectoryError, IsADirectoryError, ... *)

Inductive result (A : Type) :=
| Ok (a : A)
| Raise (e : exception).
Arguments Ok {A} a.
Arguments Raise {A} e.

(** [disk] is the committed content of the database file, [view] what the
    open connection sees (committed rows and its own pending writes).
    [journal] records every writing statement and every transaction
    boundary in the order in which they are executed. *)
Record state := {
  disk : database;
  view : database;
  in_transaction : bool;
  fs : filesystem;
  stdout : list string;
  journal : list statement }.

Definition M (A : Type) : Type := state → result A * state.

#[global] Instance M_ret : MRet M := λ A a s, (Ok a, s).
#[global] Instance M_bind : MBind M := λ A B f m s,
  match m s with
  | (Ok a, s') => f a s'
  | (Raise e, s') => (Raise e, s')
  end.

Definition get_fs : M filesystem := λ s, (Ok (fs s), s).

Definition put_fs (fs' : filesystem) (s : state) : state :=
  {| disk := disk s; view := view s; in_transaction := in_transaction s;
     fs := fs'; stdout := stdout s; journal := journal s |}.

Definition put_line (line : string) (s : state) : state :=
  {| disk := disk s; view := view s; in_transaction := in_transaction s;
     fs := fs s; stdout := stdout s ++ [line]; journal := journal s |}.

(** A writing statement: sqlite3 opens a transaction before it. *)
Definition run_statement (st : statement) (s : state) : state :=
  {| disk := disk s; view := apply_statement st (view s);
     in_transaction := true; fs := fs s; stdout := stdout s;
     journal := journal s ++ [st] |}.

Definition set_fs (fs' : filesystem) : M unit := λ s, (Ok tt, put_fs fs' s).
Definition print (line : string) : M unit := λ s, (Ok tt, put_line line s).
Definition execute (st : statement) : M unit := λ s, (Ok tt, run_statement st s).

Definition commit_state (s : state) : state :=
  if in_transaction s then
    {| disk := view s; view := view s; in_transaction := false; fs := fs s;
       stdout := stdout s; journal := journal s ++ [Commit] |}
  else s.

Definition rollback_state (s : state) : state :=
  if in_transaction s then
    {| disk := disk s; view := disk s; in_transaction := false; fs := fs s;
       stdout := stdout s; journal := journal s ++ [Rollback] |}
  else s.

Definition commit : M unit := λ s, (Ok tt, commit_state s).

(** [_connect] (backuptool.py:17-21): a fresh connection sees the
    committed rows and has no open transaction. *)
Definition _connect (s : state) : state :=
  {| disk := disk s; view := disk s; in_transaction := false; fs := fs s;
     stdout := stdout s; journal := journal s |}.

(** [with self._connect() as conn: body] — commit when the body ends
    normally, roll back when it raises; the exception is passed on. *)
Definition with_connection {A} (body : M A) : M A := λ s,
  match body (_connect s) with
  | (Ok a, s') => (Ok a, commit_state s')
  | (Raise e, s') => (Raise e, rollback_state s')
  end.

(** [for x in xs: body x] *)
Fixpoint for_each {A} (xs : list A) (body : A → M unit) : M unit :=
  match xs with
  | [] => mret tt
  | x :: xs' => body x ;; for_each xs' body
  end.

(** [for x in xs: acc = body acc x] *)
Fixpoint fold_each {A B} (xs : list A) (acc : B) (body : B → A → M B) : M B :=
  match xs with
  | [] => mret acc
  | x :: xs' => acc' ← body acc x; fold_each xs' acc' body
  end.

(** ** The file system, as seen through [os] and [pathlib] *)

Definition parent (p : path) : path := removelast p.

(** The root always exists and is a directory. *)
Definition stat (fs : filesystem) (p : path) : option entry :=
  match p with
  | [] => Some Directory
  | _ => fs !! p
  end.

Definition is_dir (fs : filesystem) (p : path) : bool :=
  match stat fs p with Some Directory => true | _ => false end.

Definition is_file (fs : filesystem) (p : path) : bool :=
  match stat fs p with Some (RegularFile _) => true | _ => false end.

Definition strictly_below (root p : path) : Prop :=
  root `prefix_of` p ∧ p ≠ root.

(** What [root.rglob("*")] finds: every entry below [root], of any kind;
    nothing when [root] is missing or is not a directory. *)
Definition entries_below (fs : filesystem) (root : path) : list path :=
  if is_dir fs root
  then filter (strictly_below root) (map_to_list fs).*1
  else [].

(** [file.relative_to(root)] for a [file] below [root]. *)
Definition relative_to (file root : path) : path := drop (length root) file.

(** [os.makedirs(p, exist_ok=True)]: walk down from the root and create
    what is missing; a regular file in the way is an error. *)
Fixpoint makedirs_from (done rest : path) (fs : filesystem) : result filesystem :=
  match rest with
  | [] => Ok fs
  | name :: rest' =>
      let p := done ++ [name] in
      match fs !! p with
      | Some Directory => makedirs_from p rest' fs
      | Some (RegularFile _) => Raise OSError
      | None => makedirs_from p rest' (<[p := Directory]> fs)
      end
  end.

Definition makedirs (p : path) : M unit := λ s,
  match makedirs_from [] p (fs s) with
  | Ok fs' => set_fs fs' s
  | Raise e => (Raise e, s)
  end.

(** [open(p, 'wb')] followed by [f.write(content)]. *)
Definition write_file (fs : filesystem) (p : path) (content : bytes)
  : result filesystem :=
  match p with
  | [] => Raise OSError
  | _ =>
      if is_dir fs (parent p) then
        match fs !! p with
        | Some Directory => Raise OSError
        | _ => Ok (<[p := RegularFile content]> fs)
        end
      else Raise OSError
  end.

Definition open_wb_write (p : path) (content : bytes) : M unit := λ s,
  match write_file (fs s) p content with
  | Ok fs' => set_fs fs' s
  | Raise e => (Raise e, s)
  end.

(** [open(p, 'rb')]: the bytes of a regular file. *)
Definition open_rb (p : path) : M bytes := λ s,
  match stat (fs s) p with
  | Some (RegularFile content) => (Ok content, s)
  | _ => (Raise OSError, s)
  end.

(** [os.path.getsize(p)] *)
Definition getsize (p : path) : M Z := λ s,
  match stat (fs s) p with
  | Some (RegularFile content) => (Ok (Z.of_nat (length content)), s)
  | Some Directory => (Ok 0, s)   (* never asked for: callers test [is_file] *)
  | None => (Raise OSError, s)
  end.

(** Rendering of an absolute path, as [str(Path)] gives it. *)
Definition path_str (p : path) : string :=
  match p with
  | [] => "/"
  | _ => String.concat "" ((λ c, "/" +:+ c) <$> p)
  end.

(** ** SQL statements of the methods *)

(** [INSERT INTO snapshots (timestamp) VALUES (?)] and [cursor.lastrowid].
    AUTOINCREMENT: one more than the largest id the table ever held. *)
Definition insert_snapshot (timestamp : string) : M Z := λ s,
  let largest := Z.max (sqlite_sequence (view s)) (max_id (snapshots (view s))) in
  if bool_decide (MAX_ROWID ≤ largest) then (Raise DatabaseError, s)
  else
    let id := largest + 1 in
    (Ok id, run_statement (InsertSnapshot {| s_id := id; s_timestamp := timestamp |}) s).

(** [INSERT INTO files (snapshot_id, path, hash, size) VALUES (?, ?, ?, ?)];
    the foreign key on [snapshot_id] is checked. *)
Definition insert_file (r : file_row) : M unit := λ s,
  if bool_decide (f_snapshot_id r ∈ s_id <$> snapshots (view s))
  then execute (InsertFile r) s
  else (Raise IntegrityError, s).

(** [SELECT hash FROM file_data WHERE hash = ?] and [cursor.fetchone()]. *)
Definition select_hash (h : digest) : M (option digest) := λ s,
  (Ok (b_hash <$> find (λ r, bool_decide (b_hash r = h)) (file_data (view s))), s).

(** [INSERT INTO file_data (hash, content, size) VALUES (?, ?, ?)];
    [hash] is the primary key. *)
Definition insert_file_data (r : blob_row) : M unit := λ s,
  if bool_decide (b_hash r ∈ b_hash <$> file_data (view s))
  then (Raise IntegrityError, s)
  else execute (InsertFileData r) s.

(** The integers that can be bound to a parameter of a statement: SQLite
    stores an INTEGER in 64 bits, and for a Python [int] outside this range
    [cursor.execute] raises [OverflowError] before the statement runs.
    Snapshot ids are rowids and lie in this range; [restore] and [prune]
    are modelled for a [snapshot_number] in it, and what is stated about
    their outcome for a given id assumes it. *)
Definition bindable (n : Z) : Prop := INT64_MIN ≤ n ≤ INT64_MAX.

#[global] Instance bindable_dec n : Decision (bindable n).
Proof. unfold bindable. apply _. Defined.

(** [SELECT path, hash FROM files WHERE snapshot_id = ?], [fetchall()]. *)
Definition select_files (snapshot_number : Z) : M (list (path * digest)) := λ s,
  (Ok ((λ r, (f_path r, f_hash r)) <$>
         filter (λ r, f_snapshot_id r = snapshot_number) (files (view s))), s).

(** [SELECT content FROM file_data WHERE hash = ?], [fetchone()]. *)
Definition select_content (h : digest) : M (option bytes) := λ s,
  (Ok (b_content <$> find (λ r, bool_decide (b_hash r = h)) (file_data (view s))), s).

(** [SELECT hash, content FROM file_data], [fetchall()]. *)
Definition select_file_data : M (list (digest * bytes)) := λ s,
  (Ok ((λ r, (b_hash r, b_content r)) <$> file_data (view s)), s).

(** SQLite's [SUM] over integers: an overflow of the 64-bit accumulator
    aborts the statement. *)
Fixpoint sql_sum (acc : Z) (l : list Z) : result Z :=
  match l with
  | [] => Ok acc
  | x :: l' =>
      let acc' := acc + x in
      if bool_decide (INT64_MIN ≤ acc' ≤ INT64_MAX) then sql_sum acc' l'
      else Raise OperationalError
  end.

(** [SELECT s.id, s.timestamp, COALESCE(SUM(f.size), 0) FROM snapshots s
     LEFT JOIN files f ON s.id = f.snapshot_id GROUP BY s.id]:
    one group per row of [snapshots], in key order. *)
Fixpoint snapshot_totals (snaps : list snapshot_row) (fl : list file_row)
  : result (list (Z * string * Z)) :=
  match snaps with
  | [] => Ok []
  | r :: snaps' =>
      match sql_sum 0 (f_size <$> filter (λ f, f_snapshot_id f = s_id r) fl) with
      | Raise e => Raise e
      | Ok total =>
          match snapshot_totals snaps' fl with
          | Raise e => Raise e
          | Ok rows => Ok ((s_id r, s_timestamp r, total) :: rows)
          end
      end
  end.

Definition select_snapshot_totals : M (list (Z * string * Z)) := λ s,
  (snapshot_totals (snapshots (view s)) (files (view s)), s).

(** ** SHA-256 (FIPS 180-4), the function behind [hashlib.sha256] *)
Module SHA256.

Definition w32 (x : Z) : Z := Z.land x 0xffffffff.
Definition add32 (x y : Z) : Z := w32 (x + y).
Definition rotr (n x : Z) : Z := w32 (Z.lor (Z.shiftr x n) (Z.shiftl x (32 - n))).
Definition shr (n x : Z) : Z := Z.shiftr x n.

Definition Ch (x y z : Z) : Z := Z.lxor (Z.land x y) (Z.land (Z.lnot x) z).
Definition Maj (x y z : Z) : Z :=
  Z.lxor (Z.lxor (Z.land x y) (Z.land x z)) (Z.land y z).
Definition Sigma0 (x : Z) : Z := Z.lxor (Z.lxor (rotr 2 x) (rotr 13 x)) (rotr 22 x).
Definition Sigma1 (x : Z) : Z := Z.lxor (Z.lxor (rotr 6 x) (rotr 11 x)) (rotr 25 x).
Definition sigma0 (x : Z) : Z := Z.lxor (Z.lxor (rotr 7 x) (rotr 18 x)) (shr 3 x).
Definition sigma1 (x : Z) : Z := Z.lxor (Z.lxor (rotr 17 x) (rotr 19 x)) (shr 10 x).

(** The round constants are the first 32 bits of the fractional parts of
    the cube roots of the first 64 primes, the initial hash value those of
    the square roots of the first 8. *)
Definition is_prime (p : nat) : bool :=
  forallb (λ d, negb (p mod d =? 0)%nat) (seq 2 (p - 2)).

Definition primes (n : nat) : list Z :=
  Z.of_nat <$> take n (filter (λ p, is_prime p = true) (seq 2 310)).

(** The largest [r] below [2 ^ bits] with [r ^ 3 ≤ n], bit by bit. *)
Fixpoint cube_root (bits : nat) (r n : Z) : Z :=
  match bits with
  | O => r
  | S bits' =>
      let r' := r + 2 ^ Z.of_nat bits' in
      if bool_decide (r' ^ 3 ≤ n) then cube_root bits' r' n else cube_root bits' r n
  end.

Definition K : list Z :=
  Eval vm_compute in (λ p, w32 (cube_root 36 0 (p * 2 ^ 96))) <$> primes 64.

Definition H0 : list Z :=
  Eval vm_compute in (λ p, w32 (Z.sqrt (p * 2 ^ 64))) <$> primes 8.

Definition byte_Z (b : Byte.byte) : Z := Z.of_N (Byte.to_N b).

(** Big-endian value of a run of bytes. *)
Definition be_word (bs : list Z) : Z := foldl (λ acc b, acc * 256 + b) 0 bs.

(** The [n] low bytes of [x], most significant first. *)
Fixpoint be_bytes (n : nat) (x : Z) : list Z :=
  match n with
  | O => []
  | S n' => be_bytes n' (x / 256) ++ [x mod 256]
  end.

(** The message, a [1] bit, zeros up to 56 modulo 64, the bit length. *)
Definition pad (msg : list Z) : list Z :=
  let len := Z.of_nat (length msg) in
  msg ++ [0x80] ++ replicate (Z.to_nat ((55 - len) mod 64)) 0 ++ be_bytes 8 (8 * len).

Fixpoint words (n : nat) (block : list Z) : list Z :=
  match n with
  | O => []
  | S n' => be_word (take 4 block) :: words n' (drop 4 block)
  end.

(** The message schedule, most recent word first. *)
Fixpoint schedule (n : nat) (w : list Z) : list Z :=
  match n with
  | O => w
  | S n' =>
      let x := add32 (add32 (sigma1 (w !!! 1%nat)) (w !!! 6%nat))
                     (add32 (sigma0 (w !!! 14%nat)) (w !!! 15%nat)) in
      schedule n' (x :: w)
  end.

Definition round (v : list Z) (kw : Z * Z) : list Z :=
  match v with
  | [a; b; c; d; e; f; g; h] =>
      let t1 := add32 (add32 (add32 h (Sigma1 e)) (add32 (Ch e f g) kw.1)) kw.2 in
      let t2 := add32 (Sigma0 a) (Maj a b c) in
      [add32 t1 t2; a; b; c; add32 d t1; e; f; g]
  | _ => v
  end.

Definition compress (h : list Z) (block : list Z) : list Z :=
  let w := reverse (schedule 48 (reverse (words 16 block))) in
  zip_with add32 h (foldl round h (zip K w)).

Fixpoint blocks (n : nat) (h : list Z) (msg : list Z) : list Z :=
  match n with
  | O => h
  | S n' => blocks n' (compress h (take 64 msg)) (drop 64 msg)
  end.

Definition hex_digit (x : Z) : Ascii.ascii :=
  Ascii.ascii_of_nat (Z.to_nat (if bool_decide (x < 10) then 48 + x else 87 + x)).

Fixpoint hex (n : nat) (x : Z) : string :=
  match n with
  | O => ""
  | S n' => hex n' (x / 16) +:+ String (hex_digit (x mod 16)) ""
  end.

Definition hexdigest (data : bytes) : digest :=
  let msg := pad (byte_Z <$> data) in
  let h := blocks (length msg / 64) H0 msg in
  String.concat "" (hex 8 <$> h).

End SHA256.

(** ** The methods of [BackupTool] *)

Definition SNAPSHOT_DIR : string := "snapshots".
Definition CHUNK : nat := Z.to_nat 8192.

Section BackupTool.

(** [hashlib.sha256(data).hexdigest()].  A hash object is modelled by the
    bytes fed to it so far: [update] appends, [hexdigest] hashes them. *)
Variable sha256 : bytes → digest.

(** [root.rglob("*")].  The order in which a directory is scanned is up
    to the operating system, so the enumeration is a parameter; what it
    has to contain is stated by [rglob_complete] below. *)
Variable rglob : filesystem → path → list path.

Definition hasher_update (hasher chunk : bytes) : bytes := hasher ++ chunk.
Definition hasher_hexdigest (hasher : bytes) : digest := sha256 hasher.

(** [while chunk := f.read(8192): hasher.update(chunk)]; [unread] is what
    is left of the file.  The loop ends at the first empty chunk; a file of
    [n] bytes needs at most [n + 1] reads. *)
Fixpoint read_chunks (fuel : nat) (unread hasher : bytes) : bytes :=
  match fuel with
  | O => hasher
  | S fuel' =>
      match take CHUNK unread with
      | [] => hasher
      | chunk => read_chunks fuel' (drop CHUNK unread) (hasher_update hasher chunk)
      end
  end.

(** backuptool.py:55-61 *)
Definition _hash_file (file_path : path) : M (digest * Z) :=
  size ← getsize file_path;
  f ← open_rb file_path;
  let hasher := read_chunks (S (length f)) f [] in
  mret (hasher_hexdigest hasher, size).

(** backuptool.py:78-82: store the bytes of [file] under [file_hash]
    unless a blob with that key is there already. *)
Definition put_if_absent (file_hash : digest) (file : path) (file_size : Z)
  : M unit :=
  row ← select_hash file_hash;
  match row with
  | Some _ => mret tt
  | None =>
      content ← open_rb file;
      insert_file_data {| b_hash := file_hash; b_content := content;
                          b_size := file_size |}
  end.

(** The body of the loop of [snapshot] (backuptool.py:72-82). *)
Definition snapshot_file (target_directory : path) (snapshot_id : Z)
    (total_size : Z) (file : path) : M Z :=
  fs ← get_fs;
  if is_file fs file then
    '(file_hash, file_size) ← _hash_file file;
    let total_size := total_size + file_size in
    insert_file {| f_snapshot_id := snapshot_id;
                   f_path := relative_to file target_directory;
                   f_hash := file_hash; f_size := file_size |} ;;
    put_if_absent file_hash file file_size ;;
    mret total_size
  else mret total_size.

(** backuptool.py:63-86; [now] is [time.strftime("%Y-%m-%d %H:%M:%S")] and
    [target_directory] is already resolved. *)
Definition snapshot (now : string) (target_directory : path) : M Z :=
  '(snapshot_id, total_size) ← with_connection (
    snapshot_id ← insert_snapshot now;
    fs ← get_fs;
    total_size ← fold_each (rglob fs target_directory) 0
                   (snapshot_file target_directory snapshot_id);
    commit ;;
    mret (snapshot_id, total_size));
  print ("Snapshot " +:+ pretty snapshot_id +:+ " created. Total size: "
         +:+ pretty total_size +:+ " bytes") ;;
  mret snapshot_id.

Definition snapshot_line (snap : Z * string * Z) : string :=
  pretty snap.1.1 +:+ "        " +:+ snap.1.2 +:+ "    " +:+ pretty snap.2.

(** backuptool.py:88-95 *)
Definition list_snapshots : M unit :=
  with_connection (
    snapshots ← select_snapshot_totals;
    print "SNAPSHOT  TIMESTAMP           SIZE (bytes)" ;;
    for_each snapshots (λ snap, print (snapshot_line snap))).

(** The body of the loop of [restore] (backuptool.py:106-112). *)
Definition restore_file (output_directory : path) (entry : path * digest)
  : M unit :=
  let '(rel_path, file_hash) := entry in
  let target_path := output_directory ++ rel_path in
  makedirs (parent target_path) ;;
  content ← select_content file_hash;
  match content with
  | Some content => open_wb_write target_path content
  | None => mret tt
  end.

(** backuptool.py:97-113; [output_directory] is already resolved. *)
Definition restore (snapshot_number : Z) (output_directory : path) : M unit :=
  makedirs output_directory ;;
  with_connection (
    files ← select_files snapshot_number;
    for_each files (restore_file output_directory)) ;;
  print ("Snapshot " +:+ pretty snapshot_number +:+ " restored to "
         +:+ path_str output_directory +:+ ".").

(** backuptool.py:115-122 *)
Definition prune (snapshot_number : Z) : M unit :=
  with_connection (
    execute (DeleteSnapshot snapshot_number) ;;
    execute (DeleteFiles snapshot_number) ;;
    commit) ;;
  print ("Snapshot " +:+ pretty snapshot_number +:+ " pruned.").

(** backuptool.py:23-53; [cwd] is the working directory.  A database file
    always holds the three tables here, so [CREATE TABLE IF NOT EXISTS]
    changes nothing; a new file starts as [empty_database]. *)
Definition _init_db (cwd : path) : M unit :=
  makedirs (cwd ++ [SNAPSHOT_DIR]) ;;
  with_connection commit.

(** The loop of [check] (backuptool.py:129-132); the result tells whether
    the method returned from inside the loop. *)
Fixpoint check_loop (files : list (digest * bytes)) : M bool :=
  match files with
  | [] => mret false
  | (file_hash, content) :: files' =>
      if bool_decide (sha256 content ≠ file_hash) then
        print ("Corruption detected for hash: " +:+ file_hash) ;;
        mret true
      else check_loop files'
  end.

(** backuptool.py:124-133 *)
Definition check : M unit :=
  returned ← with_connection (
    files ← select_file_data;
    check_loop files);
  if returned : bool then mret tt
  else print "All files verified successfully.".

End BackupTool.

(** [rglob] yields every entry below [root] exactly once, in some order. *)
Definition rglob_complete (rglob : filesystem → path → list path) : Prop :=
  ∀ fs root, rglob fs root ≡ₚ entries_below fs root.

(** ** Replaying statements *)

(** Replaying a list of statements on the relations, and on a state. *)
Definition replay (sts : list statement) (db : database) : database :=
  foldl (λ db st, apply_statement st db) db sts.

Definition run_statements (sts : list statement) (s : state) : state :=
  foldl (λ s st, run_statement st s) s sts.

(** ** What one [snapshot] writes *)

Section SnapshotScript.
Variable sha256 : bytes → digest.

Definition new_file_row (target_directory : path) (snapshot_id : Z)
    (file : path) (content : bytes) : file_row :=
  {| f_snapshot_id := snapshot_id;
     f_path := relative_to file target_directory;
     f_hash := sha256 content;
     f_size := Z.of_nat (length content) |}.

Definition new_blob_row (content : bytes) : blob_row :=
  {| b_hash := sha256 content; b_content := content;
     b_size := Z.of_nat (length content) |}.

(** The statements one turn of the loop executes, given the relations
    as the connection sees them at that moment. *)
Definition file_statements (fs : filesystem) (target_directory : path)
    (snapshot_id : Z) (db : database) (file : path) : list statement :=
  match stat fs file with
  | Some (RegularFile content) =>
      InsertFile (new_file_row target_directory snapshot_id file content) ::
      (if bool_decide (sha256 content ∈ b_hash <$> file_data db) then []
       else [InsertFileData (new_blob_row content)])
  | _ => []
  end.

Fixpoint walk_statements (fs : filesystem) (target_directory : path)
    (snapshot_id : Z) (db : database) (walk : list path) : list statement :=
  match walk with
  | [] => []
  | file :: walk' =>
      let sts := file_statements fs target_directory snapshot_id db file in
      sts ++ walk_statements fs target_directory snapshot_id (replay sts db) walk'
  end.

Definition file_size (fs : filesystem) (file : path) : Z :=
  match stat fs file with
  | Some (RegularFile content) => Z.of_nat (length content)
  | _ => 0
  end.

Definition walk_size (fs : filesystem) (walk : list path) : Z :=
  foldr (λ file total, file_size fs file + total) 0 walk.

(** The id the next row of [snapshots] gets. *)
Definition next_id (db : database) : Z :=
  Z.max (sqlite_sequence db) (max_id (snapshots db)) + 1.

Definition snapshot_statements (now : string) (fs : filesystem)
    (target_directory : path) (db : database) (walk : list path)
  : list statement :=
  let r := {| s_id := next_id db; s_timestamp := now |} in
  InsertSnapshot r ::
  walk_statements fs target_directory (next_id db)
    (apply_statement (InsertSnapshot r) db) walk.

Definition snapshot_message (snapshot_id total_size : Z) : string :=
  "Snapshot " +:+ pretty snapshot_id +:+ " created. Total size: "
  +:+ pretty total_size +:+ " bytes".

End SnapshotScript.

(** ** What [restore], [prune], [check] and [list_snapshots] do *)

(** One turn of the loop of [restore], on the file system alone: the
    outcome, and the file system it leaves behind. *)
Definition restore_file_fs (db : database) (output_directory : path)
    (fs : filesystem) (entry : path * digest) : result unit * filesystem :=
  let target_path := output_directory ++ entry.1 in
  match makedirs_from [] (parent target_path) fs with
  | Raise e => (Raise e, fs)
  | Ok fs1 =>
      match find (λ r, bool_decide (b_hash r = entry.2)) (file_data db) with
      | Some r =>
          match write_file fs1 target_path (b_content r) with
          | Raise e => (Raise e, fs1)
          | Ok fs2 => (Ok tt, fs2)
          end
      | None => (Ok tt, fs1)
      end
  end.

Fixpoint restore_files_fs (db : database) (output_directory : path)
    (fs : filesystem) (entries : list (path * digest)) : result unit * filesystem :=
  match entries with
  | [] => (Ok tt, fs)
  | entry :: entries' =>
      match restore_file_fs db output_directory fs entry with
      | (Raise e, fs1) => (Raise e, fs1)
      | (Ok _, fs1) => restore_files_fs db output_directory fs1 entries'
      end
  end.

(** The rows [restore] fetches for a snapshot. *)
Definition snapshot_entries (db : database) (snapshot_number : Z)
  : list (path * digest) :=
  (λ r, (f_path r, f_hash r)) <$>
    filter (λ r, f_snapshot_id r = snapshot_number) (files db).

Definition restore_message (snapshot_number : Z) (output_directory : path) : string :=
  "Snapshot " +:+ pretty snapshot_number +:+ " restored to "
  +:+ path_str output_directory +:+ ".".

Definition prune_message (snapshot_number : Z) : string :=
  "Snapshot " +:+ pretty snapshot_number +:+ " pruned.".

(** The first stored blob whose bytes do not hash to its key. *)
Definition first_mismatch (sha256 : bytes → digest) (blobs : list blob_row)
  : option blob_row :=
  find (λ r, bool_decide (sha256 (b_content r) ≠ b_hash r)) blobs.

Definition check_message (sha256 : bytes → digest) (blobs : list blob_row) : string :=
  match first_mismatch sha256 blobs with
  | Some r => "Corruption detected for hash: " +:+ b_hash r
  | None => "All files verified successfully."
  end.

Definition put_lines (lines : list string) (s : state) : state :=
  foldl (λ s line, put_line line s) s lines.

Definition list_header : string := "SNAPSHOT  TIMESTAMP           SIZE (bytes)".

(** ** Invariants of the store *)

Definition ids (db : database) : list Z := s_id <$> snapshots db.
Definition keys (db : database) : list digest := b_hash <$> file_data db.

(** What the schema enforces: [snapshots.id] is the rowid (rows are kept in
    strictly increasing id order), [files.snapshot_id] references a row of
    [snapshots], and [file_data.hash] is a key. *)
Definition db_ok (db : database) : Prop :=
  StronglySorted Z.lt (ids db) ∧
  Forall (λ r, f_snapshot_id r ∈ ids db) (files db) ∧
  NoDup (keys db).

#[global] Instance db_ok_dec db : Decision (db_ok db).
Proof. unfold db_ok. apply _. Defined.

(** The content-addressing contract: the bytes stored under a key hash to
    that key. *)
Definition blob_verified (sha256 : bytes → digest) (r : blob_row) : Prop :=
  sha256 (b_content r) = b_hash r.

Definition blobs_verified (sha256 : bytes → digest) (db : database) : Prop :=
  Forall (blob_verified sha256) (file_data db).

#[global] Instance blob_verified_dec sha256 r : Decision (blob_verified sha256 r).
Proof. unfold blob_verified. apply _. Defined.

#[global] Instance blobs_verified_dec sha256 db : Decision (blobs_verified sha256 db).
Proof. unfold blobs_verified. apply _. Defined.

(** The committed contents of the database file after each statement of a
    journal, starting from [disk] with the connection seeing [view]. *)
Fixpoint disk_history (disk view : database) (sts : list statement)
  : list database :=
  match sts with
  | [] => []
  | Commit :: sts' => view :: disk_history view view sts'
  | Rollback :: sts' => disk :: disk_history disk disk sts'
  | st :: sts' => disk :: disk_history disk (apply_statement st view) sts'
  end.

(** ** Sequences of calls *)

Inductive call :=
| CallSnapshot (now : string) (target_directory : path)
| CallListSnapshots
| CallRestore (snapshot_number : Z) (output_directory : path)
| CallPrune (snapshot_number : Z)
| CallCheck.

Section Calls.
Variable sha256 : bytes → digest.
Variable rglob : filesystem → path → list path.

(** The state a call leaves behind, whether it returns or raises. *)
Definition run_call (c : call) (s : state) : state :=
  match c with
  | CallSnapshot now target_directory => (snapshot sha256 rglob now target_directory s).2
  | CallListSnapshots => (list_snapshots s).2
  | CallRestore snapshot_number output_directory =>
      (restore snapshot_number output_directory s).2
  | CallPrune snapshot_number => (prune snapshot_number s).2
  | CallCheck => (check sha256 s).2
  end.

Definition run_calls (cs : list call) (s : state) : state :=
  foldl (λ s c, run_call c s) s cs.
End Calls.

(** ** Sizes *)

Definition sum_sizes (fl : list file_row) : Z := foldr Z.add 0 (f_size <$> fl).

(** The file rows of one snapshot, and the sum of their sizes. *)
Definition files_of (db : database) (id : Z) : list file_row :=
  filter (λ f, f_snapshot_id f = id) (files db).

Definition total_size (db : database) (id : Z) : Z := sum_sizes (files_of db id).

(** Sizes are lengths of files, and what is stored fits SQLite's integers. *)
Definition sizes_ok (db : database) : Prop :=
  Forall (λ f, 0 ≤ f_size f) (files db) ∧ sum_sizes (files db) ≤ INT64_MAX.

#[global] Instance sizes_ok_dec db : Decision (sizes_ok db).
Proof. unfold sizes_ok. apply _. Defined.

Definition snapshot_rows (db : database) : list (Z * string * Z) :=
  (λ r, (s_id r, s_timestamp r, total_size db (s_id r))) <$> snapshots db.

(** ** The rows one walk adds *)

Section WalkRows.
Variable sha256 : bytes → digest.

Definition regular_content (fs : filesystem) (file : path) : option bytes :=
  match stat fs file with
  | Some (RegularFile content) => Some content
  | _ => None
  end.

(** The file rows of a walk, in walk order. *)
Definition walk_rows (fs : filesystem) (target_directory : path)
    (snapshot_id : Z) (walk : list path) : list file_row :=
  omap (λ file, new_file_row sha256 target_directory snapshot_id file
                  <$> regular_content fs file) walk.

(** [file_data] after storing [content] unless its digest is a key. *)
Definition add_blob (blobs : list blob_row) (content : bytes) : list blob_row :=
  if bool_decide (sha256 content ∈ b_hash <$> blobs) then blobs
  else blobs ++ [new_blob_row sha256 content].

Definition add_blobs (blobs : list blob_row) (contents : list bytes)
  : list blob_row :=
  foldl add_blob blobs contents.

(** No two of the byte strings in [l] collide under the hash. *)
Definition collision_free (l : list bytes) : Prop :=
  Forall (λ c1, Forall (λ c2, sha256 c1 = sha256 c2 → c1 = c2) l) l.

#[global] Instance collision_free_dec l : Decision (collision_free l).
Proof. unfold collision_free. apply _. Defined.

(** The moment a file row is written, its digest already is a key. *)
Fixpoint blob_before_entry (db : database) (sts : list statement) : Prop :=
  match sts with
  | [] => True
  | st :: sts' =>
      (match st with
       | InsertFile r => f_hash r ∈ keys db
       | _ => True
       end) ∧ blob_before_entry (apply_statement st db) sts'
  end.

(** Each file row is followed at once by the insert of its blob, unless
    its digest already is a key; nothing else is executed. *)
Fixpoint entry_then_blob (db : database) (sts : list statement) : Prop :=
  match sts with
  | [] => True
  | InsertFile r :: sts' =>
      let db1 := apply_statement (InsertFile r) db in
      match sts' with
      | InsertFileData b :: sts'' =>
          (f_hash r ∉ keys db) ∧ b_hash b = f_hash r ∧
          entry_then_blob (apply_statement (InsertFileData b) db1) sts''
      | _ => f_hash r ∈ keys db ∧ entry_then_blob db1 sts'
      end
  | _ => False
  end.
End WalkRows.

#[global] Instance blob_before_entry_dec db sts : Decision (blob_before_entry db sts).
Proof. revert db. induction sts as [|[] sts IH]; intros db; simpl; apply _. Defined.

(** ** Paths and trees *)

(** The directories [makedirs_from done rest] looks at, top down. *)
Fixpoint descents (done rest : path) : list path :=
  match rest with
  | [] => []
  | name :: rest' => (done ++ [name]) :: descents (done ++ [name]) rest'
  end.

(** The bytes of the regular file at [p], if there is one. *)
Definition file_at (fs : filesystem) (p : path) : option bytes :=
  match stat fs p with
  | Some (RegularFile content) => Some content
  | _ => None
  end.

(** The root is no entry of the map, and every entry lies in a directory. *)
Definition fs_ok (fs : filesystem) : Prop :=
  fs !! [] = None ∧ map_Forall (λ p _, is_dir fs (parent p) = true) fs.

#[global] Instance fs_ok_dec fs : Decision (fs_ok fs).
Proof. unfold fs_ok. apply _. Defined.

(** Nothing lies below [out]; [out] is missing or an empty directory, and
    no regular file is in the way of creating it. *)
Definition destination_fresh (fs : filesystem) (out : path) : Prop :=
  map_Forall (λ p _, ¬ strictly_below out p) fs ∧
  Forall (λ q, is_file fs q = false) (descents [] out).

#[global] Instance destination_fresh_dec fs out : Decision (destination_fresh fs out).
Proof. unfold destination_fresh. apply _. Defined.

(** ** What [restore] writes *)

(** Some entry of the snapshot puts the bytes [content] at [p]. *)
Definition written_by (db : database) (out : path) (entries : list (path * digest))
    (p : path) (content : bytes) : Prop :=
  ∃ rel h r, (rel, h) ∈ entries ∧ p = out ++ rel ∧
    find (λ r, bool_decide (b_hash r = h)) (file_data db) = Some r ∧
    content = b_content r.

(** The entries fit a tree [tree] (given by what lies at each relative
    path): each entry is a regular file of the tree with the bytes of its
    blob, below directories of the tree. *)
Definition entries_fit (db : database) (tree : path → option entry)
    (entries : list (path * digest)) : Prop :=
  ∀ rel h, (rel, h) ∈ entries →
    rel ≠ [] ∧
    (∃ content, tree rel = Some (RegularFile content) ∧
       ∀ r, find (λ r, bool_decide (b_hash r = h)) (file_data db) = Some r →
            b_content r = content) ∧
    (∀ q, q `prefix_of` rel → q ≠ rel → tree q = Some Directory).

(** What lies at and below [out] is part of the tree, and [out] can be
    reached. *)
Definition image_of (tree : path → option entry) (out : path) (fs : filesystem)
  : Prop :=
  (∀ q, q ≠ [] → q `prefix_of` out → fs !! q = Some Directory) ∧
  (∀ rel e, fs !! (out ++ rel) = Some e → tree rel = Some e).

(** The bytes of the regular files below [target_directory]. *)
Definition contents_below (fs : filesystem) (target_directory : path) : list bytes :=
  omap (regular_content fs) (entries_below fs target_directory).

(** ** A small store to run the methods on *)

Definition demo_bytes (s : string) : bytes := String.list_byte_of_string s.

(** The files of the test suite, a copy in a subdirectory, and a binary. *)
Definition demo_fs : filesystem :=
  list_to_map
    [ (["data"], Directory);
      (["data"; "file1.txt"], RegularFile (demo_bytes "Hello World"));
      (["data"; "file2.txt"], RegularFile (demo_bytes "Backup Tool Test"));
      (["data"; "sub"], Directory);
      (["data"; "sub"; "copy.txt"], RegularFile (demo_bytes "Hello World"));
      (["data"; "sub"; "image.bin"], RegularFile [Byte.x00; Byte.xff; Byte.x80]);
      (["notes.txt"], RegularFile (demo_bytes "To be deleted")) ].

(** A store right after [_init_db]. *)
Definition demo_state : state :=
  {| disk := empty_database; view := empty_database; in_transaction := false;
     fs := demo_fs; stdout := []; journal := [] |}.

Definition demo_now : string := "2024-01-01 00:00:00".

(** [demo_state] after [snapshot("/data")]. *)
Definition demo_snapshot : result Z * state :=
  snapshot SHA256.hexdigest entries_below demo_now ["data"] demo_state.


Definition demo_hello : digest :=
  "a591a6d40bf420404a011733cfb7b190d62c65bf0bcda32b57b277d9ad9f146e".
Definition demo_test : digest :=
  "48cafcd7ceb2110884c304f9c3e3de54b7804ac202873a415d86cc813df8c545".
Definition demo_binary : digest :=
  "f742b965f156c10374bc23aea96e3a8aff8facd6fc079defeaa30219ad86f211".

Definition with_file_data (blobs : list blob_row) (s : state) : state :=
  let db := {| snapshots := snapshots (disk s);
               sqlite_sequence := sqlite_sequence (disk s);
               files := files (disk s); file_data := blobs |} in
  {| disk := db; view := db; in_transaction := false; fs := fs s;
     stdout := stdout s; journal := journal s |}.

(** The store of [demo_snapshot] after the blob of [file2.txt] was lost. *)
Definition demo_blob_lost : state :=
  with_file_data
    (filter (λ r, b_hash r ≠ demo_test) (file_data (disk demo_snapshot.2)))
    demo_snapshot.2.

(** The store of [demo_snapshot] after the bytes of that blob were changed. *)
Definition demo_bit_rot : state :=
  with_file_data
    ((λ r, if bool_decide (b_hash r = demo_test)
           then {| b_hash := b_hash r; b_content := demo_bytes "Backup Fool Test";
                   b_size := b_size r |}
           else r) <$> file_data (disk demo_snapshot.2))
    demo_snapshot.2.

(** [demo_snapshot], then a snapshot of a path that does not exist. *)
Definition demo_two_snapshots : state :=
  run_calls SHA256.hexdigest entries_below
    [CallSnapshot demo_now ["data"]; CallSnapshot "2024-01-02 00:00:00" ["nowhere"]]
    demo_state.


(** [restore] on the store that lost a blob. *)
Definition demo_restored : state := (restore 1 ["restore"] demo_blob_lost).2.

(** The demo store after its only snapshot was pruned, and after one more
    snapshot was taken. *)
Definition demo_pruned : state := (prune 1 demo_snapshot.2).2.

Definition demo_again : state :=
  (snapshot SHA256.hexdigest entries_below demo_now ["data"]
     (run_calls SHA256.hexdigest entries_below [CallPrune 1] demo_snapshot.2)).2.

(** ** Stores this tool has written *)

(** Every file row names a stored blob; the size kept with a blob is the
    number of its bytes; the ids in use were allocated; no path occurs
    twice in a snapshot. *)
Definition entries_have_blobs (db : database) : Prop :=
  Forall (λ r, f_hash r ∈ keys db) (files db).

Definition blob_sizes_ok (db : database) : Prop :=
  Forall (λ r, b_size r = Z.of_nat (length (b_content r))) (file_data db).

Definition ids_allocated (db : database) : Prop :=
  Forall (λ i, 1 ≤ i ≤ sqlite_sequence db) (ids db).

Definition paths_distinct (db : database) : Prop :=
  ∀ n, NoDup (f_path <$> files_of db n).

Definition store_ok (sha256 : bytes → digest) (db : database) : Prop :=
  db_ok db ∧ blobs_verified sha256 db ∧ entries_have_blobs db ∧
  blob_sizes_ok db ∧ ids_allocated db ∧ paths_distinct db.

(** The states reached from a new store by calls of the methods, with any
    changes to the file system in between. *)
Inductive reachable (sha256 : bytes → digest)
    (rglob : filesystem → path → list path) : state → Prop :=
| reachable_new s : disk s = empty_database → reachable sha256 rglob s
| reachable_call c s :
    reachable sha256 rglob s → reachable sha256 rglob (run_call sha256 rglob c s)
| reachable_files fs' s :
    reachable sha256 rglob s → reachable sha256 rglob (put_fs fs' s).

(** ** The command line *)

(** What [argparse] makes of the command line (backuptool.py:136-154);
    directories are resolved.  [CmdNone] stands for a command line without
    a command. *)
Inductive command :=
| CmdSnapshot (target_directory : path)
| CmdList
| CmdRestore (snapshot_number : Z) (output_directory : path)
| CmdPrune (snapshot : Z)
| CmdCheck
| CmdNone.

Section Main.
Variable sha256 : bytes → digest.
Variable rglob : filesystem → path → list path.

(** backuptool.py:155-168.  [BackupTool()] runs [_init_db] in the working
    directory [cwd]; [usage] is the text [parser.print_help()] prints. *)
Definition main (cwd : path) (now : string) (usage : list string)
    (args : command) : M unit :=
  _init_db cwd ;;
  match args with
  | CmdSnapshot target_directory =>
      snapshot sha256 rglob now target_directory ;; mret tt
  | CmdList => list_snapshots
  | CmdRestore snapshot_number output_directory =>
      restore snapshot_number output_directory
  | CmdPrune snapshot_number => prune snapshot_number
  | CmdCheck => check sha256
  | CmdNone => for_each usage print
  end.
End Main.

(** The demo store after a second snapshot of the same tree, a day later. *)
Definition demo_twice : state :=
  (snapshot SHA256.hexdigest entries_below "2024-01-02 00:00:00" ["data"]
     demo_snapshot.2).2.

(** A new store whose snapshot ids are used up. *)
Definition demo_ids_used_up : state :=
  let db := {| snapshots := []; sqlite_sequence := MAX_ROWID;
               files := []; file_data := [] |} in
  {| disk := db; view := db; in_transaction := false;
     fs := demo_fs; stdout := []; journal := [] |}.

(** [restore] of the demo snapshot into [/restore]. *)
Definition demo_restored_all : state := (restore 1 ["restore"] demo_snapshot.2).2.

(** [demo_state] after [_init_db] in the root directory. *)
Definition demo_initialised : state := (_init_db [] demo_state).2.

(** * Properties *)

(** ** Running the monad *)

Lemma bind_run {A B} (m : M A) (f : A → M B) (s : state) :
  (m ≫= f) s = match m s with
               | (Ok a, s') => f a s'
               | (Raise e, s') => (Raise e, s')
               end.
Proof. reflexivity. Qed.

Lemma ret_run {A} (a : A) (s : state) : (mret a : M A) s = (Ok a, s).
Proof. reflexivity. Qed.

Lemma replay_app sts1 sts2 db :
  replay (sts1 ++ sts2) db = replay sts2 (replay sts1 db).
Proof. apply foldl_app. Qed.

Lemma run_statements_app sts1 sts2 s :
  run_statements (sts1 ++ sts2) s = run_statements sts2 (run_statements sts1 s).
Proof. apply foldl_app. Qed.

Lemma run_statements_disk sts s : disk (run_statements sts s) = disk s.
Proof. revert s; induction sts as [|st sts IH]; intros s; [done|]. simpl. by rewrite IH. Qed.

Lemma run_statements_fs sts s : fs (run_statements sts s) = fs s.
Proof. revert s; induction sts as [|st sts IH]; intros s; [done|]. simpl. by rewrite IH. Qed.

Lemma run_statements_stdout sts s : stdout (run_statements sts s) = stdout s.
Proof. revert s; induction sts as [|st sts IH]; intros s; [done|]. simpl. by rewrite IH. Qed.

Lemma run_statements_view sts s :
  view (run_statements sts s) = replay sts (view s).
Proof. revert s; induction sts as [|st sts IH]; intros s; [done|]. simpl. by rewrite IH. Qed.

Lemma run_statements_journal sts s :
  journal (run_statements sts s) = journal s ++ sts.
Proof.
  revert s; induction sts as [|st sts IH]; intros s; simpl.
  - by rewrite app_nil_r.
  - rewrite IH. simpl. by rewrite <- app_assoc.
Qed.

Lemma run_statements_in_transaction sts s :
  in_transaction (run_statements sts s) =
  match sts with [] => in_transaction s | _ => true end.
Proof.
  revert s; induction sts as [|st sts IH]; intros s; [done|].
  simpl. rewrite IH. by destruct sts.
Qed.

(** ** Hashing a file *)

Lemma CHUNK_pos : (0 < CHUNK)%nat.
Proof. unfold CHUNK. lia. Qed.

Lemma read_chunks_all fuel unread hasher :
  (length unread < fuel)%nat → read_chunks fuel unread hasher = hasher ++ unread.
Proof.
  revert unread hasher.
  induction fuel as [|fuel IH]; intros unread hasher Hlen; [lia|].
  simpl. destruct (take CHUNK unread) as [|b chunk] eqn:Hchunk.
  - destruct unread as [|b0 unread]; [by rewrite app_nil_r|].
    pose proof CHUNK_pos. destruct CHUNK; [lia|]. discriminate.
  - rewrite IH.
    + unfold hasher_update. rewrite <- Hchunk, <- app_assoc. by rewrite take_drop.
    + rewrite length_drop.
      assert (0 < length unread)%nat by (destruct unread; [by rewrite take_nil in Hchunk|simpl; lia]).
      pose proof CHUNK_pos. lia.
Qed.

Section Hashing.
Variable sha256 : bytes → digest.

Lemma _hash_file_regular file content s :
  stat (fs s) file = Some (RegularFile content) →
  _hash_file sha256 file s = (Ok (sha256 content, Z.of_nat (length content)), s).
Proof.
  intros Hstat. unfold _hash_file.
  rewrite bind_run. unfold getsize. rewrite Hstat.
  rewrite bind_run. unfold open_rb. rewrite Hstat.
  rewrite ret_run. unfold hasher_hexdigest.
  rewrite read_chunks_all by lia. done.
Qed.
End Hashing.

(** ** [snapshot] executes a script of statements *)

Lemma find_hash_None (h : digest) (l : list blob_row) :
  find (λ r, bool_decide (b_hash r = h)) l = None ↔ h ∉ b_hash <$> l.
Proof.
  induction l as [|r l IH]; simpl.
  - split; [intros _; apply not_elem_of_nil|done].
  - case_bool_decide as Hr.
    + split; [done|]. intros Hn. exfalso. apply Hn. subst. apply list_elem_of_here.
    + rewrite IH, not_elem_of_cons. intuition congruence.
Qed.

Lemma find_hash_Some (h : digest) (l : list blob_row) r :
  find (λ r, bool_decide (b_hash r = h)) l = Some r → r ∈ l ∧ b_hash r = h.
Proof.
  induction l as [|r' l IH]; simpl; [done|].
  case_bool_decide as Hr.
  - intros [= ->]. split; [apply list_elem_of_here|done].
  - intros Hf. destruct (IH Hf). split; [by apply list_elem_of_further|done].
Qed.

Lemma replay_snapshots_insert_only sts db :
  Forall (λ st, ∃ r, st = InsertFile r ∨ ∃ b, st = InsertFileData b) sts →
  snapshots (replay sts db) = snapshots db ∧
  sqlite_sequence (replay sts db) = sqlite_sequence db.
Proof.
  revert db. induction sts as [|st sts IH]; intros db Hsts; [done|].
  inversion Hsts as [|? ? Hst Hsts']; subst. simpl.
  destruct (IH (apply_statement st db) Hsts') as [-> ->].
  destruct Hst as [r [->|[b ->]]]; done.
Qed.

Lemma commit_state_idemp s : commit_state (commit_state s) = commit_state s.
Proof. unfold commit_state. by destruct (in_transaction s) eqn:E; simpl; rewrite ?E. Qed.

Section SnapshotRuns.
Variable sha256 : bytes → digest.
Variable rglob : filesystem → path → list path.

Lemma file_statements_insert_only fs target id db file :
  Forall (λ st, ∃ r, st = InsertFile r ∨ ∃ b, st = InsertFileData b)
    (file_statements sha256 fs target id db file).
Proof.
  unfold file_statements. destruct (stat fs file) as [[content|]|]; try constructor.
  - eexists. by left.
  - case_bool_decide; constructor; [|constructor].
    exists (new_file_row sha256 target id file content). right. by eexists.
Qed.

Lemma walk_statements_insert_only fs target id db walk :
  Forall (λ st, ∃ r, st = InsertFile r ∨ ∃ b, st = InsertFileData b)
    (walk_statements sha256 fs target id db walk).
Proof.
  revert db. induction walk as [|file walk IH]; intros db; simpl; [constructor|].
  apply Forall_app. split; [apply file_statements_insert_only|apply IH].
Qed.

Lemma snapshot_file_run target id total file s :
  id ∈ s_id <$> snapshots (view s) →
  snapshot_file sha256 target id total file s =
  (Ok (total + file_size (fs s) file),
   run_statements (file_statements sha256 (fs s) target id (view s) file) s).
Proof.
  intros Hid. unfold snapshot_file, file_statements, file_size, is_file.
  rewrite bind_run. unfold get_fs.
  destruct (stat (fs s) file) as [[content|]|] eqn:Hstat;
    [|by rewrite Z.add_0_r..].
  rewrite bind_run, (_hash_file_regular _ _ content) by done.
  rewrite bind_run. unfold insert_file. simpl.
  rewrite bool_decide_eq_true_2 by done.
  unfold execute. rewrite bind_run. unfold put_if_absent.
  rewrite bind_run. unfold select_hash. simpl.
  destruct (find _ (file_data (view s))) as [r|] eqn:Hfind; simpl.
  - apply find_hash_Some in Hfind as [Hin Hh].
    rewrite bool_decide_eq_true_2; [done|].
    rewrite <- Hh. by apply list_elem_of_fmap_2.
  - apply find_hash_None in Hfind.
    rewrite bool_decide_eq_false_2 by done.
    rewrite bind_run. unfold open_rb. simpl. rewrite Hstat.
    unfold insert_file_data. simpl.
    rewrite bool_decide_eq_false_2 by done.
    done.
Qed.

Lemma snapshot_loop_run target id walk total s :
  id ∈ s_id <$> snapshots (view s) →
  fold_each walk total (snapshot_file sha256 target id) s =
  (Ok (total + walk_size (fs s) walk),
   run_statements (walk_statements sha256 (fs s) target id (view s) walk) s).
Proof.
  revert total s. induction walk as [|file walk IH]; intros total s Hid; simpl.
  - by rewrite ret_run, Z.add_0_r.
  - rewrite bind_run, snapshot_file_run by done.
    rewrite IH.
    + rewrite run_statements_app, run_statements_fs, run_statements_view.
      by rewrite Z.add_assoc.
    + rewrite run_statements_view.
      by destruct (replay_snapshots_insert_only _ (view s)
                     (file_statements_insert_only (fs s) target id (view s) file)) as [-> _].
Qed.

(** [snapshot] either finds the rowids used up, or runs
    [snapshot_statements], commits and prints one line. *)
Lemma snapshot_run now target s :
  snapshot sha256 rglob now target s =
  if bool_decide (MAX_ROWID < next_id (disk s)) then (Raise DatabaseError, _connect s)
  else
    let walk := rglob (fs s) target in
    (Ok (next_id (disk s)),
     put_line (snapshot_message (next_id (disk s)) (walk_size (fs s) walk))
       (commit_state
          (run_statements (snapshot_statements sha256 now (fs s) target (disk s) walk)
             (_connect s)))).
Proof.
  unfold snapshot. rewrite bind_run. unfold with_connection.
  rewrite bind_run. unfold insert_snapshot, next_id. simpl.
  case_bool_decide as Hfull.
  - rewrite bool_decide_eq_true_2 by lia. done.
  - rewrite bool_decide_eq_false_2 by lia.
    rewrite bind_run. unfold get_fs. simpl.
    rewrite bind_run, snapshot_loop_run.
    + rewrite bind_run. unfold commit. rewrite ret_run.
      rewrite bind_run. unfold print. rewrite ret_run. simpl.
      rewrite Z.add_0_l. unfold snapshot_message, snapshot_statements, next_id.
      by rewrite commit_state_idemp.
    + simpl. rewrite fmap_app. apply elem_of_app. right. apply list_elem_of_here.
Qed.
End SnapshotRuns.

(** ** [restore], [prune], [check] and [list_snapshots] as state transformers *)

Lemma put_fs_id s : put_fs (fs s) s = s.
Proof. by destruct s. Qed.

Lemma makedirs_run p s :
  makedirs p s = match makedirs_from [] p (fs s) with
                 | Ok fs' => (Ok tt, put_fs fs' s)
                 | Raise e => (Raise e, s)
                 end.
Proof. reflexivity. Qed.

Lemma restore_file_run out entry s :
  restore_file out entry s =
  let r := restore_file_fs (view s) out (fs s) entry in (r.1, put_fs r.2 s).
Proof.
  destruct entry as [rel_path file_hash].
  unfold restore_file, restore_file_fs. simpl.
  rewrite bind_run, makedirs_run.
  destruct (makedirs_from [] (parent (out ++ rel_path)) (fs s)) as [fs1|e]; simpl;
    [|by rewrite put_fs_id].
  rewrite bind_run. unfold select_content. simpl.
  destruct (find _ (file_data (view s))) as [r|]; simpl; [|done].
  unfold open_wb_write. simpl.
  destruct (write_file fs1 (out ++ rel_path) (b_content r)); done.
Qed.

Lemma restore_loop_run out entries s :
  for_each entries (restore_file out) s =
  let r := restore_files_fs (view s) out (fs s) entries in (r.1, put_fs r.2 s).
Proof.
  revert s. induction entries as [|entry entries IH]; intros s; simpl.
  - by rewrite ret_run, put_fs_id.
  - rewrite bind_run, restore_file_run. simpl.
    destruct (restore_file_fs (view s) out (fs s) entry) as [[[]|e] fs1]; simpl; [|done].
    rewrite IH. done.
Qed.

Lemma restore_run snapshot_number out s :
  restore snapshot_number out s =
  match makedirs_from [] out (fs s) with
  | Raise e => (Raise e, s)
  | Ok fs0 =>
      match restore_files_fs (disk s) out fs0 (snapshot_entries (disk s) snapshot_number) with
      | (Ok _, fs') =>
          (Ok tt, put_line (restore_message snapshot_number out) (put_fs fs' (_connect s)))
      | (Raise e, fs') => (Raise e, put_fs fs' (_connect s))
      end
  end.
Proof.
  unfold restore. rewrite bind_run, makedirs_run.
  destruct (makedirs_from [] out (fs s)) as [fs0|e]; [|done].
  rewrite bind_run. unfold with_connection.
  rewrite bind_run. unfold select_files. simpl.
  rewrite restore_loop_run. simpl. fold (snapshot_entries (disk s) snapshot_number).
  destruct (restore_files_fs (disk s) out fs0 _) as [[[]|e] fs']; done.
Qed.

Lemma prune_run snapshot_number s :
  prune snapshot_number s =
  (Ok tt, put_line (prune_message snapshot_number)
            (commit_state (run_statements [DeleteSnapshot snapshot_number;
                                           DeleteFiles snapshot_number] (_connect s)))).
Proof. reflexivity. Qed.

Section CheckRuns.
Variable sha256 : bytes → digest.

Lemma check_loop_run blobs s :
  check_loop sha256 ((λ r, (b_hash r, b_content r)) <$> blobs) s =
  match first_mismatch sha256 blobs with
  | Some r => (Ok true, put_line ("Corruption detected for hash: " +:+ b_hash r) s)
  | None => (Ok false, s)
  end.
Proof.
  unfold first_mismatch. induction blobs as [|r blobs IH]; simpl; [done|].
  case_bool_decide; [done|apply IH].
Qed.

Lemma check_run s :
  check sha256 s =
  (Ok tt, put_line (check_message sha256 (file_data (disk s))) (_connect s)).
Proof.
  unfold check, check_message. rewrite bind_run. unfold with_connection.
  rewrite bind_run. unfold select_file_data. simpl.
  rewrite check_loop_run.
  destruct (first_mismatch sha256 (file_data (disk s))); done.
Qed.
End CheckRuns.

Lemma print_lines_run (A : Type) (f : A → string) (rows : list A) s :
  for_each rows (λ row, print (f row)) s = (Ok tt, put_lines (f <$> rows) s).
Proof.
  revert s. induction rows as [|row rows IH]; intros s; simpl; [done|].
  rewrite bind_run. unfold print at 1. by rewrite IH.
Qed.

Lemma list_snapshots_run s :
  list_snapshots s =
  match snapshot_totals (snapshots (disk s)) (files (disk s)) with
  | Raise e => (Raise e, _connect s)
  | Ok rows =>
      (Ok tt, put_lines (list_header :: (snapshot_line <$> rows)) (_connect s))
  end.
Proof.
  unfold list_snapshots, with_connection. rewrite bind_run.
  unfold select_snapshot_totals. simpl.
  destruct (snapshot_totals _ _) as [rows|e]; [|done].
  rewrite bind_run. unfold print at 1. rewrite print_lines_run. simpl.
  unfold commit_state.
  assert (Hin : ∀ lines s', in_transaction (put_lines lines s') = in_transaction s').
  { induction lines as [|l lines IH]; intros s'; [done|]. simpl. by rewrite IH. }
  by rewrite Hin.
Qed.

(** ** What each call commits *)

Lemma put_lines_disk lines s : disk (put_lines lines s) = disk s.
Proof. revert s; induction lines as [|l lines IH]; intros s; [done|]. simpl. by rewrite IH. Qed.

Lemma put_lines_journal lines s : journal (put_lines lines s) = journal s.
Proof. revert s; induction lines as [|l lines IH]; intros s; [done|]. simpl. by rewrite IH. Qed.

Lemma put_lines_stdout lines s : stdout (put_lines lines s) = stdout s ++ lines.
Proof.
  revert s; induction lines as [|l lines IH]; intros s; simpl.
  - by rewrite app_nil_r.
  - rewrite IH. simpl. by rewrite <- app_assoc.
Qed.

(** A transaction that ran statements [sts] and committed. *)
Lemma committed_disk sts s :
  sts ≠ [] →
  disk (commit_state (run_statements sts (_connect s))) = replay sts (disk s).
Proof.
  intros Hne. unfold commit_state.
  rewrite run_statements_in_transaction. destruct sts; [done|].
  simpl disk. by rewrite run_statements_view.
Qed.

Lemma committed_journal sts s :
  sts ≠ [] →
  journal (commit_state (run_statements sts (_connect s))) = journal s ++ sts ++ [Commit].
Proof.
  intros Hne. unfold commit_state.
  rewrite run_statements_in_transaction. destruct sts; [done|].
  simpl journal. rewrite run_statements_journal. simpl.
  by rewrite <- !app_assoc.
Qed.

Lemma apply_statement_sequence st db :
  sqlite_sequence db ≤ sqlite_sequence (apply_statement st db).
Proof. destruct st; simpl; lia. Qed.

Lemma replay_sequence sts db :
  sqlite_sequence db ≤ sqlite_sequence (replay sts db).
Proof.
  revert db. induction sts as [|st sts IH]; intros db; simpl; [lia|].
  pose proof (apply_statement_sequence st db).
  pose proof (IH (apply_statement st db)). unfold replay in *. lia.
Qed.

Lemma restore_disk snapshot_number out s :
  disk (restore snapshot_number out s).2 = disk s.
Proof.
  rewrite restore_run.
  destruct (makedirs_from [] out (fs s)) as [fs0|e]; [|done].
  destruct (restore_files_fs _ _ _ _) as [[[]|e] fs']; done.
Qed.

Lemma restore_journal snapshot_number out s :
  journal (restore snapshot_number out s).2 = journal s.
Proof.
  rewrite restore_run.
  destruct (makedirs_from [] out (fs s)) as [fs0|e]; [|done].
  destruct (restore_files_fs _ _ _ _) as [[[]|e] fs']; done.
Qed.

Lemma list_snapshots_disk s : disk (list_snapshots s).2 = disk s.
Proof.
  rewrite list_snapshots_run. destruct (snapshot_totals _ _); [|done].
  simpl. by rewrite put_lines_disk.
Qed.

Section CallsCommit.
Variable sha256 : bytes → digest.
Variable rglob : filesystem → path → list path.

Lemma snapshot_ok now target s id s' :
  snapshot sha256 rglob now target s = (Ok id, s') →
  id = next_id (disk s) ∧ id ≤ MAX_ROWID ∧
  s' = put_line (snapshot_message id (walk_size (fs s) (rglob (fs s) target)))
         (commit_state
            (run_statements
               (snapshot_statements sha256 now (fs s) target (disk s)
                  (rglob (fs s) target)) (_connect s))).
Proof.
  rewrite snapshot_run. case_bool_decide; [done|]. cbv zeta.
  intros Heq.
  pose proof (f_equal fst Heq) as Hid. pose proof (f_equal snd Heq) as Hs.
  cbn [fst snd] in Hid, Hs. injection Hid as <-.
  split; [done|]. split; [lia|done].
Qed.

Lemma snapshot_disk now target s id s' :
  snapshot sha256 rglob now target s = (Ok id, s') →
  id = next_id (disk s) ∧ id ≤ MAX_ROWID ∧
  disk s' = replay (snapshot_statements sha256 now (fs s) target (disk s)
                      (rglob (fs s) target)) (disk s).
Proof.
  intros Hrun. apply snapshot_ok in Hrun as (Hid & Hmax & ->).
  split; [done|]. split; [done|].
  change (disk (put_line ?l ?s)) with (disk s). by rewrite committed_disk.
Qed.

Lemma snapshot_raise_disk now target s e s' :
  snapshot sha256 rglob now target s = (Raise e, s') → disk s' = disk s.
Proof. rewrite snapshot_run. case_bool_decide; [|done]. by intros [= <- <-]. Qed.

(** Whatever a call does, the committed relations afterwards are the
    replay of some statements on the committed relations before. *)
Lemma run_call_replay c s :
  ∃ sts, disk (run_call sha256 rglob c s) = replay sts (disk s).
Proof.
  destruct c as [now target| |n out|n|]; simpl.
  - destruct (snapshot sha256 rglob now target s) as [[id|e] s'] eqn:Hrun;
      cbn [snd].
    + apply snapshot_disk in Hrun as (_ & _ & ->). by eexists.
    + apply snapshot_raise_disk in Hrun. by exists [].
  - exists []. apply list_snapshots_disk.
  - exists []. apply restore_disk.
  - exists [DeleteSnapshot n; DeleteFiles n]. done.
  - exists []. by rewrite check_run.
Qed.

Lemma run_calls_sequence cs s :
  sqlite_sequence (disk s) ≤ sqlite_sequence (disk (run_calls sha256 rglob cs s)).
Proof.
  revert s. induction cs as [|c cs IH]; intros s; simpl; [lia|].
  etrans; [|apply IH].
  destruct (run_call_replay c s) as [sts ->]. apply replay_sequence.
Qed.

Lemma snapshot_sequence now target s id s' :
  snapshot sha256 rglob now target s = (Ok id, s') →
  sqlite_sequence (disk s) < id ∧ id ≤ sqlite_sequence (disk s').
Proof.
  intros Hrun. apply snapshot_disk in Hrun as (-> & _ & ->).
  unfold snapshot_statements, next_id. split; [lia|].
  simpl. etrans; [|apply replay_sequence]. simpl. lia.
Qed.


End CallsCommit.

(** ** [restore] and [check] only read *)


(** ** [check] *)

Lemma first_mismatch_here sha256 good r rest :
  Forall (blob_verified sha256) good → ¬ blob_verified sha256 r →
  first_mismatch sha256 (good ++ r :: rest) = Some r.
Proof.
  intros Hgood Hr. unfold first_mismatch.
  induction Hgood as [|r' good Hr' _ IH]; simpl.
  - by rewrite bool_decide_eq_true_2.
  - by rewrite bool_decide_eq_false_2 by (by intros ?).
Qed.

Lemma first_mismatch_None sha256 blobs :
  first_mismatch sha256 blobs = None ↔ Forall (blob_verified sha256) blobs.
Proof.
  unfold first_mismatch. induction blobs as [|r blobs IH]; simpl.
  - split; [constructor|done].
  - case_bool_decide as Hr.
    + split; [done|]. intros Hall. by inversion Hall.
    + rewrite IH. split.
      * intros Hall. constructor; [|done]. unfold blob_verified.
        by destruct (decide (sha256 (b_content r) = b_hash r)).
      * intros Hall. by inversion Hall.
Qed.

Lemma first_mismatch_Some sha256 blobs r :
  first_mismatch sha256 blobs = Some r →
  ∃ good rest, blobs = good ++ r :: rest ∧
    Forall (blob_verified sha256) good ∧ ¬ blob_verified sha256 r.
Proof.
  unfold first_mismatch. induction blobs as [|r' blobs IH]; simpl; [done|].
  case_bool_decide as Hr.
  - intros [= ->]. by exists [], blobs.
  - intros Hfind. destruct (IH Hfind) as (good & rest & -> & Hgood & Hbad).
    exists (r' :: good), rest. split; [done|]. split; [|done].
    constructor; [|done]. unfold blob_verified.
    by destruct (decide (sha256 (b_content r') = b_hash r')).
Qed.

Lemma check_stdout sha256 s :
  stdout (check sha256 s).2 = stdout s ++ [check_message sha256 (file_data (disk s))].
Proof. by rewrite check_run. Qed.

Lemma check_message_verified sha256 blobs :
  Forall (blob_verified sha256) blobs →
  check_message sha256 blobs = "All files verified successfully.".
Proof.
  intros Hall. unfold check_message.
  by rewrite (proj2 (first_mismatch_None sha256 blobs) Hall).
Qed.

(** C7 — [check] fetches every stored blob, hashes its bytes again and
    reports the first key, in storage order, whose bytes no longer hash to
    it; it stops there, so one line is printed and later blobs are not
    reported.  When the keys that fail are exactly one digest [h], the line
    names [h] and no other digest.  When every blob verifies, it prints the
    success line.  In each case [check] returns normally. *)
Theorem check_reports_first_mismatch (sha256 : bytes → digest) (s : state) :
  (check sha256 s).1 = Ok tt ∧
  (∀ good r rest,
     file_data (disk s) = good ++ r :: rest →
     Forall (blob_verified sha256) good → ¬ blob_verified sha256 r →
     stdout (check sha256 s).2 =
       stdout s ++ ["Corruption detected for hash: " +:+ b_hash r]) ∧
  (∀ h,
     h ∈ keys (disk s) →
     Forall (λ r, blob_verified sha256 r ↔ b_hash r ≠ h) (file_data (disk s)) →
     stdout (check sha256 s).2 = stdout s ++ ["Corruption detected for hash: " +:+ h]) ∧
  (Forall (blob_verified sha256) (file_data (disk s)) →
   stdout (check sha256 s).2 = stdout s ++ ["All files verified successfully."]).
Proof.
  split; [by rewrite check_run|]. rewrite check_stdout. unfold check_message.
  split; [|split].
  - intros good r rest -> Hgood Hbad. by rewrite first_mismatch_here.
  - intros h Hin Hall.
    destruct (first_mismatch sha256 (file_data (disk s))) as [r|] eqn:Hfirst.
    + apply first_mismatch_Some in Hfirst as (good & rest & Heq & _ & Hbad).
      rewrite Heq in Hall. apply Forall_app in Hall as [_ Hall].
      inversion Hall as [|? ? Hr _]; subst.
      destruct (decide (b_hash r = h)) as [->|Hne]; [done|].
      exfalso. apply Hbad. by apply Hr.
    + apply first_mismatch_None in Hfirst. exfalso.
      unfold keys in Hin. apply list_elem_of_fmap in Hin as (r & -> & Hin).
      rewrite Forall_forall in Hfirst, Hall.
      by apply (proj1 (Hall r Hin) (Hfirst r Hin)).
  - intros Hall. apply first_mismatch_None in Hall. by rewrite Hall.
Qed.

(** ** [prune] *)

Lemma filter_foreign_keys_absent id (fl : list file_row) (known : list Z) :
  Forall (λ r, f_snapshot_id r ∈ known) fl → id ∉ known →
  filter (λ r, f_snapshot_id r ≠ id) fl = fl.
Proof.
  intros Hfk Hid. induction Hfk as [|r fl Hr _ IH]; [done|].
  rewrite filter_cons_True; [by rewrite IH|]. intros Heq. by rewrite Heq in Hr.
Qed.

Lemma filter_id_absent id (snaps : list snapshot_row) :
  id ∉ s_id <$> snaps → filter (λ r, s_id r ≠ id) snaps = snaps.
Proof.
  induction snaps as [|r snaps IH]; [done|]. simpl.
  rewrite not_elem_of_cons. intros [Hne Hid].
  rewrite filter_cons_True by done. by rewrite IH.
Qed.

(** C6 — for every snapshot id, that is every id SQLite can bind, [prune]
    returns; in one transaction (two deletes, then the only commit) it
    removes the row of the snapshot and every file row with that snapshot
    id, so that the database file never holds one without the other; rows
    of other snapshots stay; [file_data] is untouched, so every blob is
    still fetched by its key and [check] still succeeds when it did before;
    pruning an id that no snapshot has changes nothing. *)
Theorem prune_postcondition (sha256 : bytes → digest) (snapshot_number : Z) (s : state) :
  bindable snapshot_number →
  let s' := (prune snapshot_number s).2 in
  (prune snapshot_number s).1 = Ok tt ∧
  snapshots (disk s') = filter (λ r, s_id r ≠ snapshot_number) (snapshots (disk s)) ∧
  files (disk s') = filter (λ r, f_snapshot_id r ≠ snapshot_number) (files (disk s)) ∧
  journal s' = journal s ++ [DeleteSnapshot snapshot_number;
                             DeleteFiles snapshot_number; Commit] ∧
  disk_history (disk s) (disk s)
    [DeleteSnapshot snapshot_number; DeleteFiles snapshot_number; Commit]
    = [disk s; disk s; disk s'] ∧
  file_data (disk s') = file_data (disk s) ∧
  (∀ h, (select_content h (_connect s')).1 = (select_content h (_connect s)).1) ∧
  (blobs_verified sha256 (disk s) →
   stdout (check sha256 s').2 = stdout s' ++ ["All files verified successfully."]) ∧
  (db_ok (disk s) → snapshot_number ∉ ids (disk s) → disk s' = disk s).
Proof.
  intros _ s'. subst s'. rewrite prune_run. cbn [fst snd].
  change (disk (put_line ?l ?s)) with (disk s).
  change (journal (put_line ?l ?s)) with (journal s).
  rewrite committed_disk, committed_journal by done.
  assert (Hfiles : ∀ fl : list file_row,
    filter (λ r, f_snapshot_id r ≠ snapshot_number)
      (filter (λ r, f_snapshot_id r ≠ snapshot_number) fl)
    = filter (λ r, f_snapshot_id r ≠ snapshot_number) fl).
  { intros fl. induction fl as [|r fl IH]; [done|].
    destruct (decide (f_snapshot_id r ≠ snapshot_number)).
    - rewrite !filter_cons_True by done. by rewrite IH.
    - by rewrite !filter_cons_False by done. }
  split; [done|]. split; [done|]. split; [apply Hfiles|].
  split; [done|]. split; [done|]. split; [done|]. split; [done|]. split.
  - intros Hver. rewrite check_stdout.
    change (disk (put_line ?l ?s)) with (disk s).
    rewrite committed_disk by done. by rewrite check_message_verified.
  - intros (_ & Hfk & _) Hid. unfold replay. simpl.
    rewrite Hfiles.
    rewrite (filter_foreign_keys_absent _ _ _ Hfk Hid), (filter_id_absent _ _ Hid).
    by destruct (disk s).
Qed.

(** ** [list_snapshots] *)

Lemma sql_sum_nonneg acc l :
  0 ≤ acc → Forall (λ x, 0 ≤ x) l → acc + foldr Z.add 0 l ≤ INT64_MAX →
  sql_sum acc l = Ok (acc + foldr Z.add 0 l).
Proof.
  revert acc. induction l as [|x l IH]; intros acc Hacc Hl Hmax; simpl in *.
  - by rewrite Z.add_0_r.
  - inversion Hl as [|? ? Hx Hl']; subst.
    assert (0 ≤ foldr Z.add 0 l).
    { clear -Hl'. induction Hl'; simpl; lia. }
    rewrite bool_decide_eq_true_2 by (unfold INT64_MIN, INT64_MAX in *; lia).
    rewrite IH by (try done; lia). f_equal. lia.
Qed.

Lemma sum_sizes_filter (P : file_row → Prop) `{∀ f, Decision (P f)} fl :
  Forall (λ f, 0 ≤ f_size f) fl →
  0 ≤ sum_sizes (filter P fl) ≤ sum_sizes fl.
Proof.
  unfold sum_sizes. induction 1 as [|f fl Hf _ IH]; [simpl; lia|].
  rewrite fmap_cons. cbn [foldr].
  destruct (decide (P f)).
  - rewrite filter_cons_True by done. rewrite fmap_cons. cbn [foldr]. lia.
  - rewrite filter_cons_False by done. lia.
Qed.

Lemma snapshot_totals_rows snaps fl :
  Forall (λ f, 0 ≤ f_size f) fl → sum_sizes fl ≤ INT64_MAX →
  snapshot_totals snaps fl =
  Ok ((λ r, (s_id r, s_timestamp r,
             sum_sizes (filter (λ f, f_snapshot_id f = s_id r) fl))) <$> snaps).
Proof.
  intros Hpos Hmax. induction snaps as [|r snaps IH]; simpl; [done|].
  pose proof (sum_sizes_filter (λ f, f_snapshot_id f = s_id r) fl Hpos) as Hsum.
  unfold sum_sizes in *.
  rewrite sql_sum_nonneg; [|lia| |lia].
  - by rewrite IH, Z.add_0_l.
  - apply Forall_fmap, Forall_forall. intros f Hf.
    apply list_elem_of_filter in Hf as [_ Hf].
    by apply (proj1 (Forall_forall _ _) Hpos).
Qed.


(** ** The rows a walk adds to [files] and [file_data] *)

Section WalkRowsFacts.
Variable sha256 : bytes → digest.

Lemma replay_file_statements fs target id db file :
  let db' := replay (file_statements sha256 fs target id db file) db in
  snapshots db' = snapshots db ∧ sqlite_sequence db' = sqlite_sequence db ∧
  files db' = files db ++ walk_rows sha256 fs target id [file] ∧
  file_data db' = add_blobs sha256 (file_data db)
                    (omap (regular_content fs) [file]).
Proof.
  unfold file_statements, walk_rows, regular_content, add_blobs. simpl.
  destruct (stat fs file) as [[content|]|]; simpl;
    [|by rewrite app_nil_r..].
  unfold add_blob. case_bool_decide; done.
Qed.

Lemma replay_walk_statements fs target id walk db :
  let db' := replay (walk_statements sha256 fs target id db walk) db in
  snapshots db' = snapshots db ∧ sqlite_sequence db' = sqlite_sequence db ∧
  files db' = files db ++ walk_rows sha256 fs target id walk ∧
  file_data db' = add_blobs sha256 (file_data db) (omap (regular_content fs) walk).
Proof.
  revert db. induction walk as [|file walk IH]; intros db; simpl.
  - by rewrite app_nil_r.
  - rewrite replay_app.
    destruct (replay_file_statements fs target id db file) as (Hs1 & Hq1 & Hf1 & Hd1).
    destruct (IH (replay (file_statements sha256 fs target id db file) db))
      as (Hs2 & Hq2 & Hf2 & Hd2).
    rewrite Hs2, Hq2, Hf2, Hd2, Hs1, Hq1, Hf1, Hd1.
    unfold walk_rows, add_blobs. simpl.
    destruct (regular_content fs file) as [content|]; simpl;
      by rewrite <- ?app_assoc, ?app_nil_r.
Qed.

Lemma add_blob_keys blobs content :
  sha256 content ∈ b_hash <$> add_blob sha256 blobs content.
Proof.
  unfold add_blob. case_bool_decide; [done|].
  rewrite fmap_app. apply elem_of_app. right. apply list_elem_of_here.
Qed.

Lemma add_blob_prefix blobs content : blobs `prefix_of` add_blob sha256 blobs content.
Proof. unfold add_blob. case_bool_decide; [done|]. by apply prefix_app_r. Qed.

Lemma add_blobs_prefix blobs contents : blobs `prefix_of` add_blobs sha256 blobs contents.
Proof.
  revert blobs. induction contents as [|c contents IH]; intros blobs; simpl; [done|].
  etrans; [apply add_blob_prefix|apply IH].
Qed.

Lemma add_blobs_keys blobs contents content :
  content ∈ contents → sha256 content ∈ b_hash <$> add_blobs sha256 blobs contents.
Proof.
  revert blobs. induction contents as [|c contents IH]; intros blobs Hin;
    [by apply elem_of_nil in Hin|].
  apply elem_of_cons in Hin as [->|Hin]; simpl; [|by apply IH].
  destruct (add_blobs_prefix (add_blob sha256 blobs c) contents) as [more ->].
  rewrite fmap_app. apply elem_of_app. left. apply add_blob_keys.
Qed.

Lemma add_blob_NoDup blobs content :
  NoDup (b_hash <$> blobs) → NoDup (b_hash <$> add_blob sha256 blobs content).
Proof.
  intros Hnd. unfold add_blob. case_bool_decide as Hin; [done|].
  rewrite fmap_app. apply NoDup_app. split; [done|]. split.
  - intros h Hh Hh'. apply list_elem_of_singleton in Hh'. by subst.
  - apply NoDup_singleton.
Qed.

Lemma add_blobs_NoDup blobs contents :
  NoDup (b_hash <$> blobs) → NoDup (b_hash <$> add_blobs sha256 blobs contents).
Proof.
  revert blobs. induction contents as [|c contents IH]; intros blobs Hnd; simpl; [done|].
  by apply IH, add_blob_NoDup.
Qed.

(** Every stored blob was there before or holds the bytes of a walked file. *)
Lemma add_blobs_from blobs contents r :
  r ∈ add_blobs sha256 blobs contents →
  r ∈ blobs ∨ ∃ content, content ∈ contents ∧ r = new_blob_row sha256 content.
Proof.
  revert blobs. induction contents as [|c contents IH]; intros blobs Hin; simpl in *;
    [by left|].
  apply IH in Hin as [Hin|(content & Hc & ->)].
  - unfold add_blob in Hin. case_bool_decide; [by left|].
    apply elem_of_app in Hin as [Hin|Hin]; [by left|].
    apply list_elem_of_singleton in Hin as ->. right. exists c.
    split; [apply list_elem_of_here|done].
  - right. exists content. split; [by apply list_elem_of_further|done].
Qed.

Lemma add_blobs_verified blobs contents :
  Forall (blob_verified sha256) blobs →
  Forall (blob_verified sha256) (add_blobs sha256 blobs contents).
Proof.
  intros Hver. apply Forall_forall. intros r Hin.
  apply add_blobs_from in Hin as [Hin|(content & _ & ->)]; [|done].
  by apply (proj1 (Forall_forall _ _) Hver).
Qed.

Lemma filter_key_absent (blobs : list blob_row) h :
  h ∉ b_hash <$> blobs → filter (λ r, b_hash r = h) blobs = [].
Proof.
  induction blobs as [|r blobs IH]; [done|]. rewrite fmap_cons, not_elem_of_cons.
  intros [Hne Hnot]. rewrite filter_cons_False by done. by apply IH.
Qed.

Lemma count_key_NoDup (blobs : list blob_row) h :
  NoDup (b_hash <$> blobs) → h ∈ b_hash <$> blobs →
  length (filter (λ r, b_hash r = h) blobs) = 1%nat.
Proof.
  induction blobs as [|r blobs IH]; intros Hnd Hin;
    [by apply elem_of_nil in Hin|].
  rewrite fmap_cons in Hnd, Hin. apply NoDup_cons in Hnd as [Hr Hnd].
  destruct (decide (b_hash r = h)) as [<-|Hne].
  - rewrite filter_cons_True by done. by rewrite filter_key_absent.
  - rewrite filter_cons_False by done.
    apply elem_of_cons in Hin as [->|Hin]; [done|]. by apply IH.
Qed.
End WalkRowsFacts.

(** ** What a successful [snapshot] commits *)

Lemma below_in_walk rglob fs target file e :
  rglob_complete rglob → is_dir fs target = true →
  strictly_below target file → fs !! file = Some e →
  file ∈ rglob fs target.
Proof.
  intros Hrglob Hdir Hbelow Hfile. rewrite (Hrglob fs target).
  unfold entries_below. rewrite Hdir.
  apply list_elem_of_filter. split; [done|].
  apply list_elem_of_fmap. exists (file, e). split; [done|].
  by apply elem_of_map_to_list.
Qed.

Lemma walk_is_below rglob fs target file :
  rglob_complete rglob → file ∈ rglob fs target →
  is_dir fs target = true ∧ strictly_below target file ∧ is_Some (fs !! file).
Proof.
  intros Hrglob. rewrite (Hrglob fs target). unfold entries_below.
  destruct (is_dir fs target); [|by intros ?%elem_of_nil].
  intros [Hbelow Hin]%list_elem_of_filter. split; [done|]. split; [done|].
  apply list_elem_of_fmap in Hin as ([file' e] & -> & Hin).
  apply elem_of_map_to_list in Hin. by exists e.
Qed.

Lemma walk_NoDup rglob fs target :
  rglob_complete rglob → NoDup (rglob fs target).
Proof.
  intros Hrglob. rewrite (Hrglob fs target). unfold entries_below.
  destruct (is_dir fs target); [|constructor].
  apply NoDup_filter, NoDup_fst_map_to_list.
Qed.

Lemma walk_not_dir rglob fs target :
  rglob_complete rglob → is_dir fs target = false → rglob fs target = [].
Proof.
  intros Hrglob Hdir. pose proof (Hrglob fs target) as Hperm.
  unfold entries_below in Hperm. rewrite Hdir in Hperm.
  by apply Permutation_nil_r in Hperm.
Qed.

Lemma strictly_below_nonroot target file : strictly_below target file → file ≠ [].
Proof.
  intros [Hpre Hne] ->. apply Hne. symmetry. by apply prefix_nil_inv.
Qed.

Lemma stat_nonroot fs file : file ≠ [] → stat fs file = fs !! file.
Proof. by destruct file. Qed.

Lemma regular_content_lookup fs file content :
  file ≠ [] → fs !! file = Some (RegularFile content) →
  regular_content fs file = Some content.
Proof.
  intros Hne Hfile. unfold regular_content. by rewrite stat_nonroot, Hfile.
Qed.

Section SnapshotCommits.
Variable sha256 : bytes → digest.
Variable rglob : filesystem → path → list path.

Lemma snapshot_rows_committed now target s id s' :
  snapshot sha256 rglob now target s = (Ok id, s') →
  snapshots (disk s') = snapshots (disk s) ++ [{| s_id := id; s_timestamp := now |}] ∧
  sqlite_sequence (disk s') = id ∧
  files (disk s') = files (disk s) ++ walk_rows sha256 (fs s) target id (rglob (fs s) target) ∧
  file_data (disk s') =
    add_blobs sha256 (file_data (disk s))
      (omap (regular_content (fs s)) (rglob (fs s) target)).
Proof.
  intros Hrun. apply snapshot_disk in Hrun as (-> & _ & ->).
  unfold snapshot_statements.
  change (replay (?st :: ?sts) ?db) with (replay sts (apply_statement st db)).
  destruct (replay_walk_statements sha256 (fs s) target (next_id (disk s))
              (rglob (fs s) target)
              (apply_statement (InsertSnapshot {| s_id := next_id (disk s);
                                                  s_timestamp := now |}) (disk s)))
    as (-> & -> & -> & ->).
  simpl. split; [done|]. split; [|done]. unfold next_id. lia.
Qed.

Lemma put_if_absent_present h file size s :
  h ∈ keys (view s) → put_if_absent h file size s = (Ok tt, s).
Proof.
  intros Hin. unfold put_if_absent. rewrite bind_run. unfold select_hash.
  destruct (find _ (file_data (view s))) as [r|] eqn:Hfind; [done|].
  by apply find_hash_None in Hfind.
Qed.

Lemma put_if_absent_twice h file1 size1 file2 size2 s :
  (put_if_absent h file1 size1 ≫= λ _, put_if_absent h file2 size2) s =
  put_if_absent h file1 size1 s.
Proof.
  rewrite bind_run.
  destruct (decide (h ∈ keys (view s))) as [Hin|Hnot].
  - rewrite !put_if_absent_present by done. done.
  - unfold put_if_absent at 1 3. rewrite !bind_run. unfold select_hash.
    rewrite (proj2 (find_hash_None h (file_data (view s))) Hnot).
    cbn [fmap option_fmap option_map]. rewrite !bind_run. unfold open_rb.
    destruct (stat (fs s) file1) as [[content|]|]; [|done..].
    unfold insert_file_data. cbn [b_hash].
    rewrite bool_decide_eq_false_2 by done. unfold execute.
    apply put_if_absent_present. unfold keys. cbn.
    rewrite fmap_app. apply elem_of_app. right. apply list_elem_of_here.
Qed.
End SnapshotCommits.

(** ** Deduplication *)

Lemma filter_key_app (blobs more : list blob_row) h :
  NoDup (b_hash <$> blobs ++ more) → h ∈ b_hash <$> blobs →
  filter (λ r, b_hash r = h) (blobs ++ more) = filter (λ r, b_hash r = h) blobs.
Proof.
  rewrite fmap_app. intros (_ & Hdisj & _)%NoDup_app Hin.
  rewrite filter_app, (filter_key_absent more h), app_nil_r; [done|].
  by apply Hdisj.
Qed.

Section Deduplication.
Variable sha256 : bytes → digest.
Variable rglob : filesystem → path → list path.

Lemma snapshot_stores_content now target s id s' file content :
  rglob_complete rglob →
  snapshot sha256 rglob now target s = (Ok id, s') →
  is_dir (fs s) target = true → strictly_below target file →
  fs s !! file = Some (RegularFile content) →
  sha256 content ∈ keys (disk s').
Proof.
  intros Hrglob Hrun Hdir Hbelow Hfile.
  apply snapshot_rows_committed in Hrun as (_ & _ & _ & Hdata).
  unfold keys. rewrite Hdata. apply add_blobs_keys.
  apply list_elem_of_omap. exists file. split.
  - by eapply below_in_walk.
  - apply regular_content_lookup; [by eapply strictly_below_nonroot|done].
Qed.

Lemma snapshot_keeps_keys_distinct now target s id s' :
  NoDup (keys (disk s)) →
  snapshot sha256 rglob now target s = (Ok id, s') →
  NoDup (keys (disk s')).
Proof.
  intros Hnd Hrun.
  apply snapshot_rows_committed in Hrun as (_ & _ & _ & Hdata).
  unfold keys. rewrite Hdata. by apply add_blobs_NoDup.
Qed.


(** ** A snapshot of something that is not a directory *)

End Deduplication.

(** ** The order of the writes of [snapshot] *)

Lemma disk_history_pending disk view sts :
  Commit ∉ sts → Rollback ∉ sts →
  disk_history disk view sts = replicate (length sts) disk ∧
  disk_history disk view (sts ++ [Commit]) =
    replicate (length sts) disk ++ [replay sts view].
Proof.
  revert view. induction sts as [|st sts IH]; intros view Hc Hr; [done|].
  apply not_elem_of_cons in Hc as [Hc Hc'], Hr as [Hr Hr'].
  destruct (IH (apply_statement st view) Hc' Hr') as [IH1 IH2].
  change (replay (st :: sts) view) with (replay sts (apply_statement st view)).
  destruct st; try congruence;
    cbn [disk_history length replicate app]; by rewrite IH1, IH2.
Qed.

Section WriteOrder.
Variable sha256 : bytes → digest.
Variable rglob : filesystem → path → list path.

Lemma walk_statements_head fs target id db walk :
  match walk_statements sha256 fs target id db walk with
  | [] | InsertFile _ :: _ => True
  | _ => False
  end.
Proof.
  revert db. induction walk as [|file walk IH]; intros db; simpl; [done|].
  unfold file_statements at 1. destruct (stat fs file) as [[content|]|]; simpl; [done|..];
    apply IH.
Qed.

Lemma walk_entry_then_blob fs target id db walk :
  entry_then_blob db (walk_statements sha256 fs target id db walk).
Proof.
  revert db. induction walk as [|file walk IH]; intros db; simpl; [done|].
  unfold file_statements.
  destruct (stat fs file) as [[content|]|]; [|apply IH..].
  case_bool_decide as Hin.
  - cbn [app replay foldl].
    pose proof (walk_statements_head fs target id
      (apply_statement (InsertFile (new_file_row sha256 target id file content)) db) walk)
      as Hhead.
    pose proof (IH (apply_statement
      (InsertFile (new_file_row sha256 target id file content)) db)) as Hrest.
    cbn [entry_then_blob].
    destruct (walk_statements sha256 fs target id _ walk) as [|[] rest]; done.
  - cbn [app replay foldl entry_then_blob]. split; [done|]. split; [done|]. apply IH.
Qed.

Lemma walk_statements_entries fs target id db walk r :
  InsertFile r ∈ walk_statements sha256 fs target id db walk →
  ∃ file content, file ∈ walk ∧ regular_content fs file = Some content ∧
    r = new_file_row sha256 target id file content.
Proof.
  revert db. induction walk as [|file walk IH]; intros db; simpl;
    [by intros ?%elem_of_nil|].
  intros [Hin|Hin]%elem_of_app.
  - unfold file_statements in Hin.
    destruct (stat fs file) as [[content|]|] eqn:Hstat; [|by apply elem_of_nil in Hin..].
    exists file, content. split; [apply list_elem_of_here|].
    split; [unfold regular_content; by rewrite Hstat|].
    apply elem_of_cons in Hin as [[= ->]|Hin]; [done|].
    case_bool_decide; [by apply elem_of_nil in Hin|].
    by apply list_elem_of_singleton in Hin.
  - destruct (IH _ Hin) as (file' & content & Hf & Hc & ->).
    exists file', content. split; [by apply list_elem_of_further|done].
Qed.

End WriteOrder.

(** ** Creating directories and writing files *)

Lemma descents_spec done rest p :
  p ∈ descents done rest ↔ ∃ q, q ≠ [] ∧ q `prefix_of` rest ∧ p = done ++ q.
Proof.
  revert done. induction rest as [|name rest IH]; intros done; simpl.
  - split; [by intros ?%elem_of_nil|].
    intros (q & Hne & Hpre & _). by apply prefix_nil_inv in Hpre.
  - rewrite elem_of_cons, IH. split.
    + intros [->|(q & Hne & Hpre & ->)].
      * exists [name]. split; [done|]. split; [|done]. by apply prefix_cons, prefix_nil.
      * exists (name :: q). split; [done|]. split; [by apply prefix_cons|].
        by rewrite <- app_assoc.
    + intros (q & Hne & Hpre & ->). destruct q as [|name' q]; [done|].
      apply prefix_cons_inv_1 in Hpre as Hname. subst name'.
      apply prefix_cons_inv_2 in Hpre.
      destruct q as [|x q]; [by left|]. right.
      exists (x :: q). split; [done|]. split; [done|]. by rewrite <- app_assoc.
Qed.

Lemma descents_root rest p :
  p ∈ descents [] rest ↔ p ≠ [] ∧ p `prefix_of` rest.
Proof.
  rewrite descents_spec. split.
  - by intros (q & Hne & Hpre & ->).
  - intros [Hne Hpre]. by exists p.
Qed.

(** After a successful [makedirs] the directories on the way exist — they
    were there or have been created — and nothing else has changed. *)
Lemma makedirs_from_lookup done rest fs fs' :
  makedirs_from done rest fs = Ok fs' →
  ∀ p, if decide (p ∈ descents done rest)
       then fs' !! p = Some Directory ∧ (fs !! p = None ∨ fs !! p = Some Directory)
       else fs' !! p = fs !! p.
Proof.
  revert done fs. induction rest as [|name rest IH]; intros done fs Hrun p;
    cbn [makedirs_from descents] in *.
  - injection Hrun as <-. rewrite decide_False; [done|]. apply not_elem_of_nil.
  - destruct (fs !! (done ++ [name])) as [[content|]|] eqn:Hhere; [done|..].
    + specialize (IH _ _ Hrun p).
      destruct (decide (p = done ++ [name])) as [->|Hne].
      * rewrite decide_True by apply list_elem_of_here.
        destruct (decide (_ ∈ descents _ rest)).
        -- destruct IH as [-> _]. split; [done|]. by right.
        -- rewrite IH, Hhere. split; [done|]. by right.
      * destruct (decide (p ∈ descents (done ++ [name]) rest)) as [Hin|Hnot].
        -- rewrite decide_True by (by apply list_elem_of_further). done.
        -- rewrite decide_False; [done|]. by intros [?|?]%elem_of_cons.
    + specialize (IH _ _ Hrun p).
      destruct (decide (p = done ++ [name])) as [->|Hne].
      * rewrite decide_True by apply list_elem_of_here.
        destruct (decide (_ ∈ descents _ rest)).
        -- destruct IH as [-> _]. split; [done|]. by left.
        -- rewrite IH, lookup_insert_eq. split; [done|]. by left.
      * rewrite lookup_insert_ne in IH by done.
        destruct (decide (p ∈ descents (done ++ [name]) rest)) as [Hin|Hnot].
        -- rewrite decide_True by (by apply list_elem_of_further). done.
        -- rewrite decide_False; [done|]. by intros [?|?]%elem_of_cons.
Qed.

Lemma makedirs_from_succeeds done rest fs :
  Forall (λ p, ∀ content, fs !! p ≠ Some (RegularFile content)) (descents done rest) →
  ∃ fs', makedirs_from done rest fs = Ok fs'.
Proof.
  revert done fs. induction rest as [|name rest IH]; intros done fs Hfree; simpl in *.
  - by eexists.
  - apply Forall_cons in Hfree as [Hhere Hfree].
    destruct (fs !! (done ++ [name])) as [[content|]|] eqn:Hlook.
    + by destruct (Hhere content).
    + by apply IH.
    + apply IH. apply Forall_forall. intros p Hp content.
      destruct (decide (p = done ++ [name])) as [->|Hne].
      * by rewrite lookup_insert_eq.
      * rewrite lookup_insert_ne by done.
        by apply (proj1 (Forall_forall _ _) Hfree).
Qed.

(** [makedirs] never touches a regular file. *)
Lemma makedirs_from_keeps_files done rest fs fs' p content :
  makedirs_from done rest fs = Ok fs' →
  fs !! p = Some (RegularFile content) → fs' !! p = Some (RegularFile content).
Proof.
  intros Hrun Hfile. pose proof (makedirs_from_lookup _ _ _ _ Hrun p) as Hp.
  destruct (decide (p ∈ descents done rest)).
  - destruct Hp as [_ [Hp|Hp]]; congruence.
  - congruence.
Qed.

Lemma write_file_lookup fs p content fs' :
  write_file fs p content = Ok fs' →
  p ≠ [] ∧ fs !! p ≠ Some Directory ∧ is_dir fs (parent p) = true ∧
  fs' = <[p := RegularFile content]> fs.
Proof.
  unfold write_file. destruct p as [|name p]; [done|].
  destruct (is_dir fs (parent (name :: p))); [|done].
  destruct (fs !! (name :: p)) as [[c|]|] eqn:Hp; [|done|];
    intros [= <-]; done.
Qed.

Lemma write_file_succeeds fs p content :
  p ≠ [] → is_dir fs (parent p) = true → fs !! p ≠ Some Directory →
  write_file fs p content = Ok (<[p := RegularFile content]> fs).
Proof.
  intros Hne Hdir Hp. unfold write_file. destruct p as [|name p]; [done|].
  rewrite Hdir. by destruct (fs !! (name :: p)) as [[c|]|].
Qed.

Lemma parent_app (out rel : path) : rel ≠ [] → parent (out ++ rel) = out ++ parent rel.
Proof. intros Hne. unfold parent. by apply removelast_app. Qed.

Lemma parent_prefix (p : path) : parent p `prefix_of` p.
Proof.
  unfold parent. destruct (decide (p = [])) as [->|Hne]; [done|].
  exists [List.last p ""]. by apply app_removelast_last.
Qed.

Lemma parent_proper (p : path) : p ≠ [] → parent p ≠ p.
Proof.
  intros Hne Heq. pose proof (app_removelast_last "" Hne) as Hp.
  unfold parent in Heq. rewrite Heq in Hp.
  apply (f_equal length) in Hp. rewrite length_app in Hp. simpl in Hp. lia.
Qed.

(** A prefix of [out ++ x] is a prefix of [out] or reaches into [x]. *)
Lemma prefix_app_cases (p out x : path) :
  p `prefix_of` out ++ x →
  p `prefix_of` out ∨ ∃ q, q ≠ [] ∧ q `prefix_of` x ∧ p = out ++ q.
Proof.
  revert p. induction out as [|name out IH]; intros p Hpre; simpl in *.
  - destruct p as [|a p]; [left; apply prefix_nil|].
    right. by exists (a :: p).
  - destruct p as [|a p]; [left; apply prefix_nil|].
    apply prefix_cons_inv_1 in Hpre as Ha. subst a.
    apply prefix_cons_inv_2 in Hpre.
    destruct (IH p Hpre) as [Hp|(q & Hne & Hq & ->)].
    + left. by apply prefix_cons.
    + right. by exists q.
Qed.

(** In a well-formed tree everything above an entry is a directory. *)
Lemma fs_ok_ancestors fs p e q :
  fs_ok fs → fs !! p = Some e → q `prefix_of` p → q ≠ p →
  stat fs q = Some Directory.
Proof.
  intros [_ Hok] Hp [x Hx]. revert p e Hp Hx.
  induction x as [|a x IH] using rev_ind; intros p e Hp -> Hne.
  - by rewrite app_nil_r in Hne.
  - pose proof (Hok _ _ Hp) as Hparent. unfold parent in Hparent.
    rewrite app_assoc, removelast_last in Hparent.
    unfold is_dir in Hparent.
    destruct (stat fs (q ++ x)) as [[c|]|] eqn:Hstat; try done.
    destruct x as [|b x]; [by rewrite app_nil_r in Hstat|].
    assert (Hlook : fs !! (q ++ b :: x) = Some Directory).
    { rewrite <- Hstat. symmetry. apply stat_nonroot. by destruct q. }
    apply (IH _ _ Hlook eq_refl).
    intros Heq. apply (f_equal length) in Heq. rewrite length_app in Heq.
    simpl in Heq. lia.
Qed.

(** ** What [restore] leaves in the file system *)

Section RestoreWrites.
Variable db : database.
Variable out : path.

Lemma restore_file_fs_Ok fs rel h fs' :
  restore_file_fs db out fs (rel, h) = (Ok tt, fs') →
  ∃ fs1, makedirs_from [] (parent (out ++ rel)) fs = Ok fs1 ∧
    match find (λ r, bool_decide (b_hash r = h)) (file_data db) with
    | Some r => write_file fs1 (out ++ rel) (b_content r) = Ok fs'
    | None => fs' = fs1
    end.
Proof.
  unfold restore_file_fs. cbn [fst snd].
  destruct (makedirs_from [] (parent (out ++ rel)) fs) as [fs1|e]; [|done].
  intros Hrun. exists fs1. split; [done|].
  destruct (find _ (file_data db)) as [r|]; [|by injection Hrun as <-].
  destruct (write_file fs1 (out ++ rel) (b_content r)) as [fs2|e]; [|done].
  by injection Hrun as <-.
Qed.

(** A step keeps the regular files, except the one it writes. *)
Lemma restore_file_fs_keeps fs rel h fs' p content :
  restore_file_fs db out fs (rel, h) = (Ok tt, fs') →
  fs !! p = Some (RegularFile content) →
  ∃ content', fs' !! p = Some (RegularFile content') ∧
    (content' = content ∨ written_by db out [(rel, h)] p content').
Proof.
  intros (fs1 & Hdirs & Hwrite)%restore_file_fs_Ok Hfile.
  pose proof (makedirs_from_keeps_files _ _ _ _ _ _ Hdirs Hfile) as Hfile1.
  destruct (find _ (file_data db)) as [r|] eqn:Hfind.
  - apply write_file_lookup in Hwrite as (_ & _ & _ & ->).
    destruct (decide (p = out ++ rel)) as [->|Hne].
    + exists (b_content r). rewrite lookup_insert_eq. split; [done|]. right.
      exists rel, h, r. split; [apply list_elem_of_here|done].
    + exists content. rewrite lookup_insert_ne by done. split; [done|by left].
  - subst fs'. exists content. split; [done|by left].
Qed.

Lemma restore_file_fs_writes fs rel h fs' r :
  restore_file_fs db out fs (rel, h) = (Ok tt, fs') →
  find (λ r, bool_decide (b_hash r = h)) (file_data db) = Some r →
  fs' !! (out ++ rel) = Some (RegularFile (b_content r)).
Proof.
  intros (fs1 & Hdirs & Hwrite)%restore_file_fs_Ok Hfind.
  rewrite Hfind in Hwrite.
  apply write_file_lookup in Hwrite as (_ & _ & _ & ->).
  by rewrite lookup_insert_eq.
Qed.

Lemma written_by_further entry entries p content :
  written_by db out entries p content → written_by db out (entry :: entries) p content.
Proof.
  intros (rel & h & r & Hin & Hrest). exists rel, h, r.
  split; [by apply list_elem_of_further|done].
Qed.

Lemma restore_files_fs_cons fs entry entries fs' :
  restore_files_fs db out fs (entry :: entries) = (Ok tt, fs') →
  ∃ fs1, restore_file_fs db out fs entry = (Ok tt, fs1) ∧
         restore_files_fs db out fs1 entries = (Ok tt, fs').
Proof.
  cbn [restore_files_fs].
  destruct (restore_file_fs db out fs entry) as [[[]|e] fs1]; [|done].
  intros Hrest. by exists fs1.
Qed.

Lemma restore_files_fs_keeps entries fs fs' p content :
  restore_files_fs db out fs entries = (Ok tt, fs') →
  fs !! p = Some (RegularFile content) →
  ∃ content', fs' !! p = Some (RegularFile content') ∧
    (content' = content ∨ written_by db out entries p content').
Proof.
  revert fs content. induction entries as [|[rel h] entries IH]; intros fs content Hrun Hfile.
  - injection Hrun as <-. exists content. split; [done|by left].
  - apply restore_files_fs_cons in Hrun as (fs1 & Hstep & Hrest).
    destruct (restore_file_fs_keeps _ _ _ _ _ _ Hstep Hfile) as (c1 & Hfile1 & Hc1).
    destruct (IH _ _ Hrest Hfile1) as (c2 & Hfile2 & Hc2).
    exists c2. split; [done|].
    destruct Hc2 as [->|Hc2]; [|right; by apply written_by_further].
    destruct Hc1 as [->|(rel' & h' & r' & Hin & Hrest')]; [by left|].
    right. exists rel', h', r'. apply list_elem_of_singleton in Hin.
    split; [rewrite Hin; apply list_elem_of_here|done].
Qed.

(** When [restore] has run through, every entry whose blob is stored has
    a regular file at its place, holding the bytes of the blob of an entry
    with that place. *)
Lemma restore_files_fs_written entries fs fs' rel h r :
  restore_files_fs db out fs entries = (Ok tt, fs') →
  (rel, h) ∈ entries →
  find (λ r, bool_decide (b_hash r = h)) (file_data db) = Some r →
  ∃ content, fs' !! (out ++ rel) = Some (RegularFile content) ∧
    written_by db out entries (out ++ rel) content.
Proof.
  revert fs. induction entries as [|entry entries IH]; intros fs Hrun Hin Hfind;
    [by apply elem_of_nil in Hin|].
  apply restore_files_fs_cons in Hrun as (fs1 & Hstep & Hrest).
  apply elem_of_cons in Hin as [<-|Hin].
  - pose proof (restore_file_fs_writes _ _ _ _ _ Hstep Hfind) as Hfile1.
    destruct (restore_files_fs_keeps _ _ _ _ _ Hrest Hfile1) as (c & Hfile & Hc).
    exists c. split; [done|].
    destruct Hc as [->|Hc]; [|by apply written_by_further].
    exists rel, h, r. split; [apply list_elem_of_here|done].
  - destruct (IH _ Hrest Hin Hfind) as (c & Hfile & Hc).
    exists c. split; [done|]. by apply written_by_further.
Qed.

(** *** Entries that fit a tree are restored without an error *)

Variable tree : path → option entry.

Lemma image_of_makedirs fs rel :
  image_of tree out fs → rel ≠ [] →
  (∀ q, q `prefix_of` rel → q ≠ rel → tree q = Some Directory) →
  ∃ fs1, makedirs_from [] (parent (out ++ rel)) fs = Ok fs1 ∧
    image_of tree out fs1 ∧ is_dir fs1 (parent (out ++ rel)) = true.
Proof.
  intros [Hreach Himage] Hne Habove. rewrite parent_app by done.
  assert (Hproper : ∀ q, q `prefix_of` parent rel → q `prefix_of` rel ∧ q ≠ rel).
  { intros q Hq. split; [by etrans; [|apply parent_prefix]|].
    intros ->. apply (parent_proper rel Hne).
    apply (anti_symm prefix); [apply parent_prefix|done]. }
  destruct (makedirs_from_succeeds [] (out ++ parent rel) fs) as [fs1 Hrun].
  { apply Forall_forall. intros p [Hp Hpre]%descents_root content Hfile.
    apply prefix_app_cases in Hpre as [Hpre|(q & Hq & Hpre & ->)].
    - by rewrite (Hreach p Hp Hpre) in Hfile.
    - apply Himage in Hfile. destruct (Hproper q Hpre) as [Hq1 Hq2].
      by rewrite (Habove q Hq1 Hq2) in Hfile. }
  exists fs1. split; [done|].
  pose proof (makedirs_from_lookup _ _ _ _ Hrun) as Hlook.
  split; [split|].
  - intros q Hq Hpre. specialize (Hlook q).
    destruct (decide (q ∈ descents [] (out ++ parent rel))); [by destruct Hlook|].
    rewrite Hlook. by apply Hreach.
  - intros rel' e He. specialize (Hlook (out ++ rel')).
    destruct (decide (out ++ rel' ∈ descents [] (out ++ parent rel))) as [Hin|Hnot];
      [|apply Himage; by rewrite <- Hlook].
    destruct Hlook as [Hdir [Hnone|Hwas]].
    + rewrite Hdir in He. injection He as <-.
      apply descents_root in Hin as [Hp Hpre].
      apply prefix_app_cases in Hpre as [Hpre|(q & Hq & Hpre & Heq)].
      * by rewrite (Hreach _ Hp Hpre) in Hnone.
      * apply app_inv_head in Heq as ->.
        destruct (Hproper q Hpre) as [Hq1 Hq2]. by apply Habove.
    + rewrite Hdir in He. injection He as <-. by apply Himage.
  - unfold is_dir. destruct (decide (out ++ parent rel = [])) as [->|Hnonroot]; [done|].
    rewrite stat_nonroot by done. specialize (Hlook (out ++ parent rel)).
    rewrite decide_True in Hlook by (by apply descents_root).
    by destruct Hlook as [-> _].
Qed.

Lemma image_of_restore_file fs rel h :
  image_of tree out fs → entries_fit db tree [(rel, h)] →
  ∃ fs', restore_file_fs db out fs (rel, h) = (Ok tt, fs') ∧ image_of tree out fs'.
Proof.
  intros Himage Hfit.
  destruct (Hfit rel h (list_elem_of_here _ _)) as (Hne & (content & Htree & Hblob) & Habove).
  destruct (image_of_makedirs fs rel Himage Hne Habove) as (fs1 & Hdirs & Himage1 & Hdir).
  unfold restore_file_fs. cbn [fst snd]. rewrite Hdirs.
  destruct (find _ (file_data db)) as [r|] eqn:Hfind; [|by exists fs1].
  rewrite (Hblob r eq_refl). destruct Himage1 as [Hreach Himage1].
  assert (Hnonroot : out ++ rel ≠ []) by (by destruct out, rel).
  rewrite write_file_succeeds; [|done|done|].
  - eexists. split; [done|]. split.
    + intros q Hq Hpre. rewrite lookup_insert_ne; [by apply Hreach|].
      intros <-. apply prefix_length in Hpre. rewrite length_app in Hpre.
      destruct rel; [done|]. simpl in Hpre. lia.
    + intros rel' e. destruct (decide (rel' = rel)) as [->|Hrel].
      * rewrite lookup_insert_eq. by intros [= <-].
      * rewrite lookup_insert_ne; [apply Himage1|].
        intros Heq. by apply app_inv_head in Heq.
  - intros Hwas. apply Himage1 in Hwas. by rewrite Htree in Hwas.
Qed.

Lemma image_of_restore_files entries fs :
  image_of tree out fs → entries_fit db tree entries →
  ∃ fs', restore_files_fs db out fs entries = (Ok tt, fs') ∧ image_of tree out fs'.
Proof.
  revert fs. induction entries as [|[rel h] entries IH]; intros fs Himage Hfit.
  - by exists fs.
  - destruct (image_of_restore_file fs rel h Himage) as (fs1 & Hstep & Himage1).
    { intros rel' h' Hin. apply list_elem_of_singleton in Hin as [= -> ->].
      apply Hfit, list_elem_of_here. }
    destruct (IH fs1 Himage1) as (fs' & Hrest & Himage').
    { intros rel' h' Hin. by apply Hfit, list_elem_of_further. }
    exists fs'. cbn [restore_files_fs]. by rewrite Hstep.
Qed.
End RestoreWrites.

(** ** A missing blob *)

Lemma makedirs_from_raises above rest fs e :
  makedirs_from above rest fs = Raise e → e = OSError.
Proof.
  revert above fs. induction rest as [|name rest IH]; intros above fs; simpl; [done|].
  destruct (fs !! (above ++ [name])) as [[content|]|]; [by intros [= <-]| |]; apply IH.
Qed.

Lemma write_file_raises fs p content e :
  write_file fs p content = Raise e → e = OSError.
Proof.
  unfold write_file. destruct p as [|name p]; [by intros [= <-]|].
  destruct (is_dir fs (parent (name :: p))); [|by intros [= <-]].
  destruct (fs !! (name :: p)) as [[c|]|]; by intros [= <-].
Qed.

Lemma restore_files_fs_raises db out entries fs e fs' :
  restore_files_fs db out fs entries = (Raise e, fs') → e = OSError.
Proof.
  revert fs. induction entries as [|[rel h] entries IH]; intros fs; simpl; [done|].
  destruct (restore_file_fs db out fs (rel, h)) as [[[]|e1] fs1] eqn:Hstep; [apply IH|].
  intros [= <- <-]. unfold restore_file_fs in Hstep. cbn [fst snd] in Hstep.
  destruct (makedirs_from [] (parent (out ++ rel)) fs) as [fs2|e2] eqn:Hdirs.
  - destruct (find _ (file_data db)) as [r|]; [|done].
    destruct (write_file fs2 (out ++ rel) (b_content r)) as [fs3|e3] eqn:Hwrite; [done|].
    injection Hstep as <- _. by eapply write_file_raises.
  - injection Hstep as <- _. by eapply makedirs_from_raises.
Qed.

(** A regular file found after the loop was there before or was written
    by an entry. *)
Lemma restore_files_fs_origin db out entries fs fs' p content :
  restore_files_fs db out fs entries = (Ok tt, fs') →
  fs' !! p = Some (RegularFile content) →
  fs !! p = Some (RegularFile content) ∨ written_by db out entries p content.
Proof.
  revert fs. induction entries as [|[rel h] entries IH]; intros fs Hrun Hfile.
  - injection Hrun as <-. by left.
  - apply restore_files_fs_cons in Hrun as (fs1 & Hstep & Hrest).
    destruct (IH _ Hrest Hfile) as [Hfile1|Hw]; [|right; by apply written_by_further].
    apply restore_file_fs_Ok in Hstep as (fs2 & Hdirs & Hwrite).
    assert (Hfrom : ∀ c, fs2 !! p = Some (RegularFile c) → fs !! p = Some (RegularFile c)).
    { intros c Hc. pose proof (makedirs_from_lookup _ _ _ _ Hdirs p) as Hp.
      destruct (decide (p ∈ descents [] (parent (out ++ rel)))); [|congruence].
      destruct Hp as [Hp _]. congruence. }
    destruct (find _ (file_data db)) as [r|] eqn:Hfind.
    + apply write_file_lookup in Hwrite as (_ & _ & _ & ->).
      destruct (decide (p = out ++ rel)) as [->|Hne].
      * rewrite lookup_insert_eq in Hfile1. injection Hfile1 as <-. right.
        exists rel, h, r. split; [apply list_elem_of_here|done].
      * rewrite lookup_insert_ne in Hfile1 by done. left. by apply Hfrom.
    + subst fs1. left. by apply Hfrom.
Qed.

Lemma NoDup_fst_functional {A B} (l : list (A * B)) x y1 y2 :
  NoDup l.*1 → (x, y1) ∈ l → (x, y2) ∈ l → y1 = y2.
Proof.
  induction l as [|[a b] l IH]; [by intros _ ?%elem_of_nil|].
  rewrite fmap_cons. cbn [fst]. intros [Ha Hnd]%NoDup_cons H1 H2.
  assert (Hfst : ∀ y, (x, y) ∈ l → x ∈ l.*1).
  { intros y Hy. apply list_elem_of_fmap. by exists (x, y). }
  apply elem_of_cons in H1 as [H1|H1], H2 as [H2|H2].
  - congruence.
  - injection H1 as -> ->. by destruct (Ha (Hfst _ H2)).
  - injection H2 as -> ->. by destruct (Ha (Hfst _ H1)).
  - by apply IH.
Qed.

Lemma restore_Ok snapshot_number out s s' :
  restore snapshot_number out s = (Ok tt, s') →
  ∃ fs0 fs',
    makedirs_from [] out (fs s) = Ok fs0 ∧
    restore_files_fs (disk s) out fs0 (snapshot_entries (disk s) snapshot_number)
      = (Ok tt, fs') ∧
    s' = put_line (restore_message snapshot_number out) (put_fs fs' (_connect s)).
Proof.
  rewrite restore_run.
  destruct (makedirs_from [] out (fs s)) as [fs0|e]; [|done].
  destruct (restore_files_fs _ _ _ _) as [[[]|e] fs'] eqn:Hloop; [|done].
  intros Heq. exists fs0, fs'. split; [done|]. split; [done|].
  by injection Heq as <-.
Qed.


(** ** Round trip *)

Lemma max_id_bound (snaps : list snapshot_row) id :
  id ∈ s_id <$> snaps → id ≤ max_id snaps.
Proof.
  unfold max_id. induction snaps as [|r snaps IH]; [by intros ?%elem_of_nil|].
  rewrite fmap_cons. cbn [foldr]. intros [->|Hin]%elem_of_cons; [lia|].
  specialize (IH Hin). lia.
Qed.

Lemma files_of_fresh db id :
  Forall (λ r, f_snapshot_id r ∈ ids db) (files db) → id = next_id db →
  filter (λ r, f_snapshot_id r = id) (files db) = [].
Proof.
  intros Hfk ->. induction Hfk as [|r fl Hr _ IH]; [done|].
  rewrite filter_cons_False; [done|].
  intros Heq. apply max_id_bound in Hr. unfold next_id in Heq. lia.
Qed.

Lemma relative_to_app (target rel : path) : relative_to (target ++ rel) target = rel.
Proof. unfold relative_to. by rewrite drop_app_length. Qed.

Section RoundTrip.
Variable sha256 : bytes → digest.
Variable rglob : filesystem → path → list path.

Lemma snapshot_fs now target s id s' :
  snapshot sha256 rglob now target s = (Ok id, s') → fs s' = fs s.
Proof.
  intros (_ & _ & ->)%snapshot_ok. change (fs (put_line ?l ?s)) with (fs s).
  unfold commit_state. destruct (in_transaction _); cbn [fs];
    by rewrite run_statements_fs.
Qed.

Lemma walk_rows_entries fs target id walk rel h :
  (rel, h) ∈ (λ r, (f_path r, f_hash r)) <$> walk_rows sha256 fs target id walk ↔
  ∃ file content, file ∈ walk ∧ regular_content fs file = Some content ∧
    rel = relative_to file target ∧ h = sha256 content.
Proof.
  rewrite list_elem_of_fmap. unfold walk_rows. split.
  - intros (r & [= -> ->] & Hr). apply list_elem_of_omap in Hr as (file & Hfile & Hr).
    destruct (regular_content fs file) as [content|] eqn:Hc; [|done].
    injection Hr as <-. by exists file, content.
  - intros (file & content & Hfile & Hc & -> & ->).
    exists (new_file_row sha256 target id file content). split; [done|].
    apply list_elem_of_omap. exists file. split; [done|]. by rewrite Hc.
Qed.

Lemma walk_rows_snapshot_id fs target id walk :
  Forall (λ r, f_snapshot_id r = id) (walk_rows sha256 fs target id walk).
Proof.
  apply Forall_forall. intros r Hr. unfold walk_rows in Hr.
  apply list_elem_of_omap in Hr as (file & _ & Hr).
  destruct (regular_content fs file); [|done]. by injection Hr as <-.
Qed.

(** The entries [restore] fetches for a snapshot just taken. *)
Lemma snapshot_entries_new now target s id s' :
  db_ok (disk s) →
  snapshot sha256 rglob now target s = (Ok id, s') →
  snapshot_entries (disk s') id =
  (λ r, (f_path r, f_hash r)) <$> walk_rows sha256 (fs s) target id (rglob (fs s) target).
Proof.
  intros (_ & Hfk & _) Hrun.
  pose proof (snapshot_disk _ _ _ _ _ _ _ Hrun) as (Hid & _ & _).
  apply snapshot_rows_committed in Hrun as (_ & _ & Hfiles & _).
  unfold snapshot_entries. rewrite Hfiles, filter_app, (files_of_fresh _ _ Hfk Hid).
  cbn [app]. f_equal.
  pose proof (walk_rows_snapshot_id (fs s) target id (rglob (fs s) target)) as Hall.
  clear Hfiles. induction Hall as [|r rows Hr _ IH]; [done|].
  rewrite filter_cons_True by done. by rewrite IH.
Qed.

End RoundTrip.

(** ** The invariants of the store hold after every call *)

Lemma StronglySorted_snoc_lt (l : list Z) x :
  StronglySorted Z.lt l → Forall (λ y, y < x) l → StronglySorted Z.lt (l ++ [x]).
Proof.
  induction 1 as [|y l Hl IH Hy]; intros Hall; simpl.
  - repeat constructor.
  - apply Forall_cons in Hall as [Hyx Hall]. constructor; [by apply IH|].
    apply Forall_app. split; [done|]. by constructor.
Qed.

Lemma StronglySorted_filter_lt (P : Z → Prop) `{∀ x, Decision (P x)} (l : list Z) :
  StronglySorted Z.lt l → StronglySorted Z.lt (filter P l).
Proof.
  induction 1 as [|y l Hl IH Hy]; [constructor|].
  destruct (decide (P y)).
  - rewrite filter_cons_True by done. constructor; [done|].
    apply Forall_forall. intros z [_ Hz]%list_elem_of_filter.
    by apply (proj1 (Forall_forall _ _) Hy).
  - by rewrite filter_cons_False.
Qed.

Lemma empty_database_ok sha256 :
  db_ok empty_database ∧ blobs_verified sha256 empty_database.
Proof. repeat split; constructor. Qed.

Lemma db_ok_prune db id :
  db_ok db → db_ok (replay [DeleteSnapshot id; DeleteFiles id] db).
Proof.
  intros (Hsorted & Hfk & Hkeys). unfold db_ok, ids, keys in *. simpl.
  split; [|split; [|done]].
  - assert (Heq : s_id <$> filter (λ r, s_id r ≠ id) (snapshots db)
                  = filter (λ x, x ≠ id) (s_id <$> snapshots db)).
    { clear. induction (snapshots db) as [|r l IH]; [done|].
      rewrite fmap_cons. destruct (decide (s_id r ≠ id)).
      - rewrite !filter_cons_True by done. by rewrite fmap_cons, IH.
      - by rewrite !filter_cons_False. }
    rewrite Heq. by apply StronglySorted_filter_lt.
  - apply Forall_forall. intros r [_ [Hne Hr]%list_elem_of_filter]%list_elem_of_filter.
    pose proof (proj1 (Forall_forall _ _) Hfk r Hr) as Hin.
    apply list_elem_of_fmap in Hin as (row & Hid & Hrow).
    apply list_elem_of_fmap. exists row. split; [done|].
    apply list_elem_of_filter. split; [congruence|done].
Qed.

Section Invariants.
Variable sha256 : bytes → digest.
Variable rglob : filesystem → path → list path.

Lemma db_ok_snapshot now target s id s' :
  db_ok (disk s) →
  snapshot sha256 rglob now target s = (Ok id, s') →
  db_ok (disk s').
Proof.
  intros (Hsorted & Hfk & Hkeys) Hrun.
  pose proof (snapshot_disk _ _ _ _ _ _ _ Hrun) as (Hid & _ & _).
  pose proof (snapshot_keeps_keys_distinct _ _ _ _ _ _ _ Hkeys Hrun) as Hkeys'.
  apply snapshot_rows_committed in Hrun as (Hsnaps & _ & Hfiles & _).
  unfold db_ok, ids in *. rewrite Hsnaps, Hfiles, fmap_app.
  split; [|split; [|done]].
  - apply StronglySorted_snoc_lt; [done|].
    apply Forall_forall. intros y Hy. apply max_id_bound in Hy.
    cbn [s_id]. rewrite Hid. unfold next_id. lia.
  - apply Forall_app. split.
    + eapply Forall_impl; [exact Hfk|]. intros r Hr. apply elem_of_app. by left.
    + eapply Forall_impl; [apply walk_rows_snapshot_id|]. intros r ->.
      apply elem_of_app. right. apply list_elem_of_here.
Qed.

Lemma blobs_verified_snapshot now target s id s' :
  blobs_verified sha256 (disk s) →
  snapshot sha256 rglob now target s = (Ok id, s') →
  blobs_verified sha256 (disk s').
Proof.
  intros Hver Hrun. apply snapshot_rows_committed in Hrun as (_ & _ & _ & Hdata).
  unfold blobs_verified. rewrite Hdata. by apply add_blobs_verified.
Qed.

(** From a store that is as the schema keeps it, and whose blobs hash to
    their keys, every call leads to such a store again. *)
Lemma run_call_invariants c s :
  db_ok (disk s) → blobs_verified sha256 (disk s) →
  db_ok (disk (run_call sha256 rglob c s)) ∧
  blobs_verified sha256 (disk (run_call sha256 rglob c s)).
Proof.
  intros Hok Hver. destruct c as [now target| |n out|n|]; cbn [run_call].
  - destruct (snapshot sha256 rglob now target s) as [[id|e] s'] eqn:Hrun; cbn [snd].
    + split; [by eapply db_ok_snapshot|by eapply blobs_verified_snapshot].
    + apply snapshot_raise_disk in Hrun. by rewrite Hrun.
  - by rewrite list_snapshots_disk.
  - by rewrite restore_disk.
  - rewrite prune_run. cbn [snd]. change (disk (put_line ?l ?s)) with (disk s).
    rewrite committed_disk by done. split; [by apply db_ok_prune|done].
  - by rewrite check_run.
Qed.

Lemma run_calls_invariants cs s :
  db_ok (disk s) → blobs_verified sha256 (disk s) →
  db_ok (disk (run_calls sha256 rglob cs s)) ∧
  blobs_verified sha256 (disk (run_calls sha256 rglob cs s)).
Proof.
  revert s. induction cs as [|c cs IH]; intros s Hok Hver; [done|].
  cbn [run_calls foldl]. destruct (run_call_invariants c s Hok Hver). by apply IH.
Qed.
End Invariants.

(** * Further properties of the methods *)

(** ** [_hash_file] *)

(** X1 — [_hash_file] reads the file in chunks of 8192 bytes, yet returns
    the digest of the whole content together with its length, for a file
    of any length; on a path that is missing or is a directory it raises
    an error of the file system.  It never changes the state. *)
Theorem hash_file_outcome (sha256 : bytes → digest) (file : path) (s : state) :
  _hash_file sha256 file s =
  match stat (fs s) file with
  | Some (RegularFile content) => (Ok (sha256 content, Z.of_nat (length content)), s)
  | _ => (Raise OSError, s)
  end.
Proof.
  destruct (stat (fs s) file) as [[content|]|] eqn:Hstat.
  - by apply _hash_file_regular.
  - unfold _hash_file. rewrite bind_run. unfold getsize. rewrite Hstat.
    rewrite bind_run. unfold open_rb. by rewrite Hstat.
  - unfold _hash_file. rewrite bind_run. unfold getsize. by rewrite Hstat.
Qed.

(** ** When [snapshot] fails, and what it leaves alone *)

Section SnapshotOutcome.
Variable sha256 : bytes → digest.
Variable rglob : filesystem → path → list path.

(** X2 — when the ids of [snapshots] are used up, [snapshot] raises the
    database error at its first statement: no file is read, and neither
    the database file, nor the file system, nor the output has changed.
    It never returns in such a state: when it returns, an id was left,
    and the id it returns is one more than the largest id given so far. *)
Theorem snapshot_when_ids_are_used_up now target s :
  let largest := Z.max (sqlite_sequence (disk s)) (max_id (snapshots (disk s))) in
  (MAX_ROWID ≤ largest →
   ∃ s', snapshot sha256 rglob now target s = (Raise DatabaseError, s') ∧
     disk s' = disk s ∧ fs s' = fs s ∧ stdout s' = stdout s ∧ journal s' = journal s) ∧
  (∀ id s', snapshot sha256 rglob now target s = (Ok id, s') →
     largest < MAX_ROWID ∧ id = largest + 1).
Proof.
  intros largest. split.
  - intros Hfull. rewrite snapshot_run. unfold next_id. fold largest.
    rewrite bool_decide_eq_true_2 by lia. by eexists.
  - intros id s' Hrun. apply snapshot_ok in Hrun as (-> & Hmax & _).
    unfold next_id in *. fold largest in Hmax |- *. lia.
Qed.

(** X3 — a snapshot only adds: the rows of earlier snapshots, their file
    rows and the stored blobs are all still there, in place, and the file
    system is not touched. *)
Theorem snapshot_only_appends now target s id s' :
  snapshot sha256 rglob now target s = (Ok id, s') →
  snapshots (disk s) `prefix_of` snapshots (disk s') ∧
  files (disk s) `prefix_of` files (disk s') ∧
  file_data (disk s) `prefix_of` file_data (disk s') ∧
  fs s' = fs s.
Proof.
  intros Hrun. pose proof (snapshot_fs _ _ _ _ _ _ _ Hrun) as Hfs.
  apply snapshot_rows_committed in Hrun as (-> & _ & -> & ->).
  split; [by eexists|]. split; [by eexists|]. split; [apply add_blobs_prefix|done].
Qed.
End SnapshotOutcome.

(** ** What a snapshot records *)

Lemma walk_size_rows sha256 fs target id walk :
  walk_size fs walk = sum_sizes (walk_rows sha256 fs target id walk).
Proof.
  unfold sum_sizes, walk_rows, walk_size, file_size, regular_content.
  induction walk as [|file walk IH]; [done|]. cbn [foldr omap list_omap].
  destruct (stat fs file) as [[content|]|]; cbn [fmap option_fmap option_map];
    rewrite IH; [by rewrite fmap_cons|done..].
Qed.

Lemma add_blobs_known sha256 blobs contents :
  Forall (λ c, sha256 c ∈ b_hash <$> blobs) contents →
  add_blobs sha256 blobs contents = blobs.
Proof.
  induction 1 as [|c contents Hc _ IH]; [done|]. cbn [add_blobs foldl].
  unfold add_blob at 2. rewrite bool_decide_eq_true_2 by done. exact IH.
Qed.

Section SnapshotRecords.
Variable sha256 : bytes → digest.
Variable rglob : filesystem → path → list path.

Lemma files_of_new now target s id s' :
  db_ok (disk s) →
  snapshot sha256 rglob now target s = (Ok id, s') →
  files_of (disk s') id = walk_rows sha256 (fs s) target id (rglob (fs s) target).
Proof.
  intros (_ & Hfk & _) Hrun.
  pose proof (snapshot_disk _ _ _ _ _ _ _ Hrun) as (Hid & _ & _).
  apply snapshot_rows_committed in Hrun as (_ & _ & Hfiles & _).
  unfold files_of. rewrite Hfiles, filter_app, (files_of_fresh _ _ Hfk Hid).
  cbn [app].
  pose proof (walk_rows_snapshot_id sha256 (fs s) target id (rglob (fs s) target)) as Hall.
  clear Hfiles. induction Hall as [|r rows Hr _ IH]; [done|].
  rewrite filter_cons_True by done. by rewrite IH.
Qed.

Lemma walk_rows_paths_NoDup fs target id walk :
  NoDup walk → Forall (λ file, target `prefix_of` file) walk →
  NoDup (f_path <$> walk_rows sha256 fs target id walk).
Proof.
  intros Hnd Hpre. induction Hnd as [|file walk Hfile Hnd IH]; [constructor|].
  apply Forall_cons in Hpre as [[rel ->] Hpre]. unfold walk_rows. cbn [omap list_omap].
  destruct (regular_content fs (target ++ rel)) as [content|];
    cbn [fmap option_fmap option_map]; [|by apply IH].
  rewrite fmap_cons. constructor; [|by apply IH].
  cbn [f_path new_file_row]. rewrite relative_to_app.
  intros Hin. apply list_elem_of_fmap in Hin as (r & Hpath & Hr).
  apply list_elem_of_omap in Hr as (file' & Hfile' & Hr).
  destruct (regular_content fs file') as [c|]; [|done]. injection Hr as <-.
  cbn [f_path new_file_row] in Hpath.
  destruct (proj1 (Forall_forall _ _) Hpre file' Hfile') as [rel' ->].
  rewrite relative_to_app in Hpath. by subst rel'.
Qed.


(** X5 — the total size [snapshot] prints is the total size
    [list_snapshots] shows for that snapshot: the sum of the sizes in its
    file rows. *)
Theorem snapshot_prints_listed_total now target s id s' :
  db_ok (disk s) →
  snapshot sha256 rglob now target s = (Ok id, s') →
  stdout s' = stdout s ++ [snapshot_message id (total_size (disk s') id)].
Proof.
  intros Hdb Hrun. unfold total_size. rewrite (files_of_new _ _ _ _ _ Hdb Hrun).
  rewrite <- (walk_size_rows sha256).
  apply snapshot_ok in Hrun as (_ & _ & ->).
  change (stdout (put_line ?l ?s)) with (stdout s ++ [l]). f_equal.
  unfold commit_state. destruct (in_transaction _); cbn [stdout];
    by rewrite run_statements_stdout.
Qed.

End SnapshotRecords.

(** ** [restore]: what it depends on, and when it fails *)

Lemma makedirs_from_blocked above rest fs q :
  q ∈ descents above rest → is_file fs q = true →
  makedirs_from above rest fs = Raise OSError.
Proof.
  revert above fs. induction rest as [|name rest IH]; intros above fs Hq Hfile;
    cbn [descents makedirs_from] in *; [by apply elem_of_nil in Hq|].
  assert (Hnonroot : ∀ p, is_file fs p = true → ∃ c, fs !! p = Some (RegularFile c)).
  { intros p Hp. unfold is_file, stat in Hp. destruct p; [done|].
    destruct (fs !! (s :: p)) as [[c|]|]; try done. by exists c. }
  apply elem_of_cons in Hq as [->|Hq].
  - by destruct (Hnonroot _ Hfile) as [c ->].
  - destruct (fs !! (above ++ [name])) as [[c|]|] eqn:Hhere; [done|by eapply IH|].
    eapply IH; [done|]. destruct (Hnonroot _ Hfile) as [c Hc].
    unfold is_file. rewrite stat_nonroot.
    + rewrite lookup_insert_ne; [by rewrite Hc|]. intros <-. congruence.
    + intros ->. by unfold is_file in Hfile.
Qed.

Lemma find_hash_ext (l1 l2 : list blob_row) h :
  l1 = l2 →
  find (λ r, bool_decide (b_hash r = h)) l1 = find (λ r, bool_decide (b_hash r = h)) l2.
Proof. by intros ->. Qed.

Lemma restore_files_fs_agree db1 db2 out fs entries :
  (∀ rel h, (rel, h) ∈ entries →
     find (λ r, bool_decide (b_hash r = h)) (file_data db1) =
     find (λ r, bool_decide (b_hash r = h)) (file_data db2)) →
  restore_files_fs db1 out fs entries = restore_files_fs db2 out fs entries.
Proof.
  revert fs. induction entries as [|[rel h] entries IH]; intros fs Hagree; [done|].
  cbn [restore_files_fs].
  assert (Hstep : restore_file_fs db1 out fs (rel, h) = restore_file_fs db2 out fs (rel, h)).
  { pose proof (Hagree rel h (list_elem_of_here _ _)) as Hfind.
    unfold restore_file_fs. cbn [fst snd]. by rewrite Hfind. }
  rewrite Hstep. destruct (restore_file_fs db2 out fs (rel, h)) as [[[]|e] fs1]; [|done].
  apply IH. intros rel' h' Hin. apply (Hagree rel' h'). by apply list_elem_of_further.
Qed.

(** The outcome of [restore] and the file system it leaves are decided by
    the file system it starts from, the entries of the snapshot and the
    blobs these name. *)
Lemma restore_depends snapshot_number out s1 s2 :
  fs s1 = fs s2 →
  snapshot_entries (disk s1) snapshot_number = snapshot_entries (disk s2) snapshot_number →
  (∀ rel h, (rel, h) ∈ snapshot_entries (disk s2) snapshot_number →
     find (λ r, bool_decide (b_hash r = h)) (file_data (disk s1)) =
     find (λ r, bool_decide (b_hash r = h)) (file_data (disk s2))) →
  (restore snapshot_number out s1).1 = (restore snapshot_number out s2).1 ∧
  fs (restore snapshot_number out s1).2 = fs (restore snapshot_number out s2).2.
Proof.
  intros Hfs Hentries Hblobs. rewrite !restore_run, Hfs, Hentries.
  destruct (makedirs_from [] out (fs s2)) as [fs0|e]; [|done].
  rewrite (restore_files_fs_agree (disk s1) (disk s2)) by done.
  by destruct (restore_files_fs (disk s2) out fs0 _) as [[[]|e] fs'].
Qed.

Lemma restore_without_entries snapshot_number out s :
  snapshot_entries (disk s) snapshot_number = [] →
  let r := restore snapshot_number out s in
  let r' := (makedirs out ≫= λ _, print (restore_message snapshot_number out)) s in
  r.1 = r'.1 ∧ fs r.2 = fs r'.2 ∧ stdout r.2 = stdout r'.2 ∧ disk r.2 = disk s.
Proof.
  intros Hnone r r'. subst r r'. rewrite restore_run, Hnone, bind_run, makedirs_run.
  by destruct (makedirs_from [] out (fs s)) as [fs0|e].
Qed.

(** X7 — [restore] cannot tell a snapshot id that no snapshot has (an id
    SQLite can bind) from an empty snapshot: it creates the output
    directory, prints its closing line and returns, like a restore that
    had nothing to write. *)
Theorem restore_of_unknown_snapshot snapshot_number out s :
  bindable snapshot_number →
  db_ok (disk s) → snapshot_number ∉ ids (disk s) →
  let r := restore snapshot_number out s in
  let r' := (makedirs out ≫= λ _, print (restore_message snapshot_number out)) s in
  r.1 = r'.1 ∧ fs r.2 = fs r'.2 ∧ stdout r.2 = stdout r'.2 ∧ disk r.2 = disk s.
Proof.
  intros _ (_ & Hfk & _) Hid. apply restore_without_entries.
  unfold snapshot_entries.
  assert (Hnone : filter (λ r, f_snapshot_id r = snapshot_number) (files (disk s)) = []).
  { induction Hfk as [|r fl Hr _ IH]; [done|].
    rewrite filter_cons_False; [done|]. intros Heq. by rewrite Heq in Hr. }
  by rewrite Hnone.
Qed.

(** X8 — once a snapshot is pruned, a restore of it (of an id SQLite can
    bind) writes no file: it only creates the output directory and prints
    its closing line. *)
Theorem restore_after_prune snapshot_number out s :
  bindable snapshot_number →
  let r := restore snapshot_number out (prune snapshot_number s).2 in
  let r' := (makedirs out ≫= λ _, print (restore_message snapshot_number out))
              (prune snapshot_number s).2 in
  r.1 = r'.1 ∧ fs r.2 = fs r'.2 ∧ stdout r.2 = stdout r'.2.
Proof.
  intros _ r r'.
  destruct (restore_without_entries snapshot_number out (prune snapshot_number s).2)
    as (H1 & H2 & H3 & _); [|done].
  rewrite prune_run. cbn [snd]. change (disk (put_line ?l ?s)) with (disk s).
  rewrite committed_disk by done. unfold snapshot_entries, replay. cbn [foldl apply_statement files].
  assert (Hnone : ∀ fl : list file_row,
    filter (λ r, f_snapshot_id r = snapshot_number)
      (filter (λ r, f_snapshot_id r ≠ snapshot_number) fl) = []).
  { intros fl. induction fl as [|x fl IH]; [done|].
    destruct (decide (f_snapshot_id x ≠ snapshot_number)).
    - rewrite (filter_cons_True (λ r, f_snapshot_id r ≠ snapshot_number)) by done.
      by rewrite filter_cons_False by done.
    - by rewrite (filter_cons_False (λ r, f_snapshot_id r ≠ snapshot_number)) by done. }
  by rewrite Hnone.
Qed.

(** X9 — when a regular file lies where the output directory, or a
    directory above it, would have to be, [restore] raises an error of the
    file system at once: nothing is written, nothing is printed, and the
    database is not opened. *)
Theorem restore_into_blocked_destination snapshot_number out s q :
  q `prefix_of` out → is_file (fs s) q = true →
  restore snapshot_number out s = (Raise OSError, s).
Proof.
  intros Hpre Hfile. rewrite restore_run.
  rewrite (makedirs_from_blocked [] out (fs s) q); [done| |done].
  apply descents_root. split; [|done]. intros ->. by unfold is_file in Hfile.
Qed.

(** X10 — pruning one snapshot does not change what a restore of another
    one does. *)
Theorem restore_unaffected_by_prune snapshot_number pruned out s :
  pruned ≠ snapshot_number →
  (restore snapshot_number out (prune pruned s).2).1 = (restore snapshot_number out s).1 ∧
  fs (restore snapshot_number out (prune pruned s).2).2 =
  fs (restore snapshot_number out s).2.
Proof.
  intros Hne.
  assert (Hdisk : disk (prune pruned s).2
                  = replay [DeleteSnapshot pruned; DeleteFiles pruned] (disk s)).
  { rewrite prune_run. cbn [snd]. change (disk (put_line ?l ?s)) with (disk s).
    by rewrite committed_disk. }
  apply restore_depends.
  - by rewrite prune_run.
  - rewrite Hdisk. unfold snapshot_entries, replay. cbn [foldl apply_statement files].
    f_equal. induction (files (disk s)) as [|x fl IH]; [done|].
    destruct (decide (f_snapshot_id x = pruned)) as [Hx|Hx].
    + rewrite (filter_cons_False (λ r, f_snapshot_id r ≠ pruned)) by (by intros ?).
      rewrite IH. rewrite filter_cons_False; [done|]. congruence.
    + rewrite !(filter_cons_True (λ r, f_snapshot_id r ≠ pruned)) by done.
      destruct (decide (f_snapshot_id x = snapshot_number)).
      * rewrite !filter_cons_True by done. by rewrite IH.
      * rewrite !filter_cons_False by done. exact IH.
  - intros rel h _. by rewrite Hdisk.
Qed.

Section RestoreAfterSnapshot.
Variable sha256 : bytes → digest.
Variable rglob : filesystem → path → list path.

Lemma find_hash_app (l more : list blob_row) h :
  h ∈ b_hash <$> l →
  find (λ r, bool_decide (b_hash r = h)) (l ++ more) =
  find (λ r, bool_decide (b_hash r = h)) l.
Proof.
  induction l as [|r l IH]; [by intros ?%elem_of_nil|].
  rewrite fmap_cons. cbn [app find]. case_bool_decide as Hr; [done|].
  intros [Heq|Hin]%elem_of_cons; [congruence|by apply IH].
Qed.

(** X11 — a snapshot is not changed by snapshots taken later: when every
    entry of a snapshot has its blob, a restore of it does after a later
    [snapshot] what it did before. *)
Theorem restore_unaffected_by_later_snapshot now target snapshot_number out s id s1 :
  snapshot sha256 rglob now target s = (Ok id, s1) →
  snapshot_number ≠ id →
  (∀ rel h, (rel, h) ∈ snapshot_entries (disk s) snapshot_number → h ∈ keys (disk s)) →
  (restore snapshot_number out s1).1 = (restore snapshot_number out s).1 ∧
  fs (restore snapshot_number out s1).2 = fs (restore snapshot_number out s).2.
Proof.
  intros Hrun Hne Hblobs.
  pose proof (snapshot_fs _ _ _ _ _ _ _ Hrun) as Hfs.
  apply snapshot_rows_committed in Hrun as (_ & _ & Hfiles & Hdata).
  apply restore_depends; [done| |].
  - unfold snapshot_entries. rewrite Hfiles, filter_app. f_equal.
    assert (Hnone : filter (λ r, f_snapshot_id r = snapshot_number)
              (walk_rows sha256 (fs s) target id (rglob (fs s) target)) = []).
    { pose proof (walk_rows_snapshot_id sha256 (fs s) target id (rglob (fs s) target))
        as Hall.
      clear Hfiles Hdata. induction Hall as [|r rows Hr _ IH]; [done|].
      rewrite filter_cons_False; [done|]. congruence. }
    by rewrite Hnone, app_nil_r.
  - intros rel h Hin. rewrite Hdata.
    destruct (add_blobs_prefix sha256 (file_data (disk s))
                (omap (regular_content (fs s)) (rglob (fs s) target))) as [more ->].
    apply find_hash_app. by apply (Hblobs rel).
Qed.
End RestoreAfterSnapshot.

(** ** Stores this tool has written *)

Lemma filter_filter_sublist {A} (P Q : A → Prop)
    `{∀ x, Decision (P x)} `{∀ x, Decision (Q x)} (l : list A) :
  filter P (filter Q l) `sublist_of` filter P l.
Proof.
  rewrite list_filter_filter.
  induction l as [|x l IH]; [done|].
  destruct (decide (P x)) as [HP|HP]; destruct (decide (Q x)) as [HQ|HQ].
  - rewrite !filter_cons_True by done. by constructor.
  - rewrite filter_cons_False by (by intros [_ ?]).
    rewrite filter_cons_True by done. by constructor.
  - rewrite !filter_cons_False by (done || by intros [? _]). done.
  - rewrite !filter_cons_False by (done || by intros [? _]). done.
Qed.

Lemma max_id_nonneg (snaps : list snapshot_row) : 0 ≤ max_id snaps.
Proof.
  unfold max_id. induction snaps as [|r l IH]; [done|].
  rewrite fmap_cons. cbn [foldr]. lia.
Qed.

Lemma store_ok_prune sha256 db id :
  store_ok sha256 db → store_ok sha256 (replay [DeleteSnapshot id; DeleteFiles id] db).
Proof.
  intros (Hdb & Hver & Hblobs & Hsizes & Hids & Hpaths).
  split; [by apply db_ok_prune|]. split; [done|].
  unfold entries_have_blobs, blob_sizes_ok, ids_allocated, paths_distinct, keys, ids,
    files_of, replay in *. cbn [foldl apply_statement files file_data snapshots sqlite_sequence].
  split; [|split; [done|split]].
  - apply Forall_forall. intros r [_ [_ Hr]%list_elem_of_filter]%list_elem_of_filter.
    by apply (proj1 (Forall_forall _ _) Hblobs).
  - apply Forall_forall. intros i Hi.
    apply list_elem_of_fmap in Hi as (r & -> & [_ Hr]%list_elem_of_filter).
    apply (proj1 (Forall_forall _ _) Hids). by apply list_elem_of_fmap_2.
  - intros n. eapply sublist_NoDup; [apply (Hpaths n)|].
    apply fmap_sublist. etrans; [apply filter_filter_sublist|].
    apply filter_filter_sublist.
Qed.

Section ReachableStores.
Variable sha256 : bytes → digest.
Variable rglob : filesystem → path → list path.
Hypothesis rglob_ok : rglob_complete rglob.

Lemma store_ok_snapshot now target s id s' :
  store_ok sha256 (disk s) →
  snapshot sha256 rglob now target s = (Ok id, s') →
  store_ok sha256 (disk s').
Proof.
  intros (Hdb & Hver & Hblobs & Hsizes & Hids & Hpaths) Hrun.
  pose proof (db_ok_snapshot _ _ _ _ _ _ _ Hdb Hrun) as Hdb'.
  pose proof (blobs_verified_snapshot _ _ _ _ _ _ _ Hver Hrun) as Hver'.
  pose proof (files_of_new _ _ _ _ _ _ _ Hdb Hrun) as Hnew.
  pose proof (snapshot_disk _ _ _ _ _ _ _ Hrun) as (Hid & _ & _).
  pose proof (snapshot_rows_committed _ _ _ _ _ _ _ Hrun) as (Hsnaps & Hseq & Hfiles & Hdata).
  split; [done|]. split; [done|].
  unfold entries_have_blobs, blob_sizes_ok, ids_allocated, paths_distinct, keys, ids in *.
  split; [|split; [|split]].
  - rewrite Hfiles, Hdata. apply Forall_app. split.
    + eapply Forall_impl; [exact Hblobs|]. intros r Hr. cbn beta in *.
      destruct (add_blobs_prefix sha256 (file_data (disk s))
                  (omap (regular_content (fs s)) (rglob (fs s) target))) as [more ->].
      rewrite fmap_app. apply elem_of_app. by left.
    + apply Forall_forall. intros r Hr. unfold walk_rows in Hr.
      apply list_elem_of_omap in Hr as (file & Hfile & Hr).
      destruct (regular_content (fs s) file) as [content|] eqn:Hc; [|done].
      injection Hr as <-. cbn [f_hash new_file_row]. apply add_blobs_keys.
      apply list_elem_of_omap. by exists file.
  - rewrite Hdata. apply Forall_forall. intros r Hr.
    apply add_blobs_from in Hr as [Hr|(c & _ & ->)]; [|done].
    by apply (proj1 (Forall_forall _ _) Hsizes).
  - rewrite Hsnaps, Hseq, fmap_app. apply Forall_app. split.
    + eapply Forall_impl; [exact Hids|]. intros i Hi. cbn beta in *.
      rewrite Hid. unfold next_id. lia.
    + constructor; [|constructor]. cbn [s_id].
      pose proof (max_id_nonneg (snapshots (disk s))).
      rewrite Hid. unfold next_id. lia.
  - intros n. destruct (decide (n = id)) as [->|Hne].
    + rewrite Hnew. apply walk_rows_paths_NoDup; [by apply walk_NoDup|].
      apply Forall_forall. intros file Hfile.
      by destruct (walk_is_below _ _ _ _ rglob_ok Hfile) as (_ & [Hpre _] & _).
    + unfold files_of. rewrite Hfiles, filter_app.
      assert (Hnone : filter (λ f, f_snapshot_id f = n)
                (walk_rows sha256 (fs s) target id (rglob (fs s) target)) = []).
      { pose proof (walk_rows_snapshot_id sha256 (fs s) target id (rglob (fs s) target))
          as Hall.
        clear Hfiles Hnew. induction Hall as [|r rows Hr _ IH]; [done|].
        rewrite filter_cons_False; [done|]. congruence. }
      rewrite Hnone, app_nil_r. apply Hpaths.
Qed.

Lemma store_ok_call c s :
  store_ok sha256 (disk s) → store_ok sha256 (disk (run_call sha256 rglob c s)).
Proof.
  intros Hok. destruct c as [now target| |n out|n|]; cbn [run_call].
  - destruct (snapshot sha256 rglob now target s) as [[id|e] s'] eqn:Hrun; cbn [snd].
    + by eapply store_ok_snapshot.
    + apply snapshot_raise_disk in Hrun. by rewrite Hrun.
  - by rewrite list_snapshots_disk.
  - by rewrite restore_disk.
  - rewrite prune_run. cbn [snd]. change (disk (put_line ?l ?s)) with (disk s).
    rewrite committed_disk by done. by apply store_ok_prune.
  - by rewrite check_run.
Qed.

Lemma store_ok_reachable s :
  reachable sha256 rglob s → store_ok sha256 (disk s).
Proof.
  induction 1 as [s Hnew|c s _ IH|fs' s _ IH].
  - rewrite Hnew. repeat split; try constructor.
  - by apply store_ok_call.
  - exact IH.
Qed.



End ReachableStores.

(** ** [prune] and the listing *)

Lemma files_of_after_delete (fl : list file_row) n id :
  id ≠ n →
  filter (λ f, f_snapshot_id f = id) (filter (λ f, f_snapshot_id f ≠ n) fl)
  = filter (λ f, f_snapshot_id f = id) fl.
Proof.
  intros Hne. induction fl as [|f fl IH]; [done|].
  destruct (decide (f_snapshot_id f = id)) as [Hf|Hf].
  - rewrite (filter_cons_True (λ f, f_snapshot_id f ≠ n)) by congruence.
    rewrite !filter_cons_True by done. by rewrite IH.
  - rewrite (filter_cons_False (λ f, f_snapshot_id f = id) f) by done.
    destruct (decide (f_snapshot_id f ≠ n)).
    + rewrite (filter_cons_True (λ f, f_snapshot_id f ≠ n)) by done.
      by rewrite filter_cons_False by done.
    + by rewrite (filter_cons_False (λ f, f_snapshot_id f ≠ n)) by done.
Qed.

(** X15 — after [prune], [list_snapshots] has the rows it had before
    without the row of the pruned snapshot: the other snapshots keep their
    timestamps and total sizes.  Pruning the same id again changes nothing. *)
Theorem prune_listing snapshot_number s :
  snapshot_rows (disk (prune snapshot_number s).2) =
    filter (λ row, row.1.1 ≠ snapshot_number) (snapshot_rows (disk s)) ∧
  disk (prune snapshot_number (prune snapshot_number s).2).2 =
    disk (prune snapshot_number s).2.
Proof.
  assert (Hdisk : ∀ s0, disk (prune snapshot_number s0).2
            = replay [DeleteSnapshot snapshot_number; DeleteFiles snapshot_number] (disk s0)).
  { intros s0. rewrite prune_run. cbn [snd]. change (disk (put_line ?l ?s)) with (disk s).
    by rewrite committed_disk. }
  assert (Hff : ∀ (A : Type) (P : A → Prop) `{∀ x, Decision (P x)} (l : list A),
            filter P (filter P l) = filter P l).
  { intros A P ? l. induction l as [|x l IH]; [done|]. destruct (decide (P x)).
    - rewrite !filter_cons_True by done. by rewrite IH.
    - by rewrite !filter_cons_False. }
  split.
  - rewrite Hdisk. unfold snapshot_rows, total_size, files_of, replay.
    cbn [foldl apply_statement files snapshots]. rewrite Hff.
    induction (snapshots (disk s)) as [|r snaps IH]; [done|].
    rewrite fmap_cons. destruct (decide (s_id r = snapshot_number)) as [Hr|Hr].
    + rewrite filter_cons_False by (by intros ?).
      rewrite (filter_cons_False _ (_, _, _)) by (by intros ?). exact IH.
    + rewrite filter_cons_True by done.
      rewrite (filter_cons_True _ (_, _, _)) by done.
      rewrite fmap_cons, IH. do 3 f_equal.
      by apply files_of_after_delete.
  - rewrite !Hdisk. unfold replay. cbn [foldl apply_statement].
    cbn [snapshots files sqlite_sequence file_data]. by rewrite !Hff.
Qed.

(** ** [_init_db] and the command line *)

Lemma makedirs_from_existing above rest fs :
  Forall (λ p, fs !! p = Some Directory) (descents above rest) →
  makedirs_from above rest fs = Ok fs.
Proof.
  revert above. induction rest as [|name rest IH]; intros above Hall;
    cbn [descents makedirs_from] in *; [done|].
  apply Forall_cons in Hall as [-> Hall]. by apply IH.
Qed.

Lemma makedirs_from_again above rest fs fs' :
  makedirs_from above rest fs = Ok fs' → makedirs_from above rest fs' = Ok fs'.
Proof.
  intros Hrun. apply makedirs_from_existing, Forall_forall. intros p Hp.
  pose proof (makedirs_from_lookup _ _ _ _ Hrun p) as Hlook.
  rewrite decide_True in Hlook by done. by destruct Hlook.
Qed.

Lemma _init_db_run cwd s :
  _init_db cwd s =
  match makedirs_from [] (cwd ++ [SNAPSHOT_DIR]) (fs s) with
  | Ok fs' => (Ok tt, put_fs fs' (_connect s))
  | Raise e => (Raise e, s)
  end.
Proof.
  unfold _init_db. rewrite bind_run, makedirs_run.
  by destruct (makedirs_from [] (cwd ++ [SNAPSHOT_DIR]) (fs s)).
Qed.

Lemma _init_db_blocked cwd s q :
  q `prefix_of` cwd ++ [SNAPSHOT_DIR] → is_file (fs s) q = true →
  _init_db cwd s = (Raise OSError, s).
Proof.
  intros Hpre Hfile. rewrite _init_db_run.
  rewrite (makedirs_from_blocked [] _ (fs s) q); [done| |done].
  apply descents_root. split; [|done]. intros ->. by unfold is_file in Hfile.
Qed.

Lemma _init_db_twice cwd s s' :
  _init_db cwd s = (Ok tt, s') → _init_db cwd s' = (Ok tt, s').
Proof.
  rewrite _init_db_run.
  destruct (makedirs_from [] (cwd ++ [SNAPSHOT_DIR]) (fs s)) as [fs'|e] eqn:Hdirs; [|done].
  intros [= <-]. rewrite _init_db_run. cbn [fs put_fs].
  by rewrite (makedirs_from_again _ _ _ _ Hdirs).
Qed.

(** X16 — [_init_db] can be run on a store any number of times: it never
    changes the database file, and run again right after it has returned it
    changes nothing at all.  When a regular file lies where the directory
    [snapshots], or a directory above it, would have to be, it raises an
    error of the file system and leaves everything as it is. *)
Theorem init_db_again cwd s :
  disk (_init_db cwd s).2 = disk s ∧
  (∀ s', _init_db cwd s = (Ok tt, s') → _init_db cwd s' = (Ok tt, s')) ∧
  (∀ q, q `prefix_of` cwd ++ [SNAPSHOT_DIR] → is_file (fs s) q = true →
        _init_db cwd s = (Raise OSError, s)).
Proof.
  split; [|split].
  - rewrite _init_db_run.
    by destruct (makedirs_from [] (cwd ++ [SNAPSHOT_DIR]) (fs s)).
  - apply _init_db_twice.
  - apply _init_db_blocked.
Qed.

Section MainRuns.
Variable sha256 : bytes → digest.
Variable rglob : filesystem → path → list path.


(** X18 — on a store that [_init_db] has set up in the working directory,
    a run of the command line does what the method it names does, and
    nothing besides; without a command it only prints the usage text. *)
Theorem main_runs_the_method cwd now usage s0 s :
  _init_db cwd s0 = (Ok tt, s) →
  main sha256 rglob cwd now usage CmdList s = list_snapshots s ∧
  (∀ n out, main sha256 rglob cwd now usage (CmdRestore n out) s = restore n out s) ∧
  (∀ n, main sha256 rglob cwd now usage (CmdPrune n) s = prune n s) ∧
  main sha256 rglob cwd now usage CmdCheck s = check sha256 s ∧
  (∀ target, main sha256 rglob cwd now usage (CmdSnapshot target) s =
             (snapshot sha256 rglob now target ≫= λ _, mret tt) s) ∧
  main sha256 rglob cwd now usage CmdNone s = (Ok tt, put_lines usage s).
Proof.
  intros Hinit. apply _init_db_twice in Hinit. unfold main.
  repeat split; intros; rewrite bind_run, Hinit; try done.
  pose proof (print_lines_run string id usage s) as Hprint.
  rewrite list_fmap_id in Hprint. exact Hprint.
Qed.

End MainRuns.

(** ** What [check] does not see, and what no call removes *)

(** X19 — [check] looks at [file_data] alone: when the stored blobs
    verify, it reports success also after blobs were lost, although file
    rows then name digests without a blob and [restore] will pass over
    those files. *)
Theorem check_blind_to_lost_blobs sha256 s lost :
  blobs_verified sha256 (disk s) →
  file_data (disk lost) `sublist_of` file_data (disk s) →
  check sha256 lost =
  (Ok tt, put_line "All files verified successfully." (_connect lost)).
Proof.
  intros Hver Hsub. rewrite check_run, check_message_verified; [done|].
  apply Forall_forall. intros r Hr.
  apply (proj1 (Forall_forall _ _) Hver). by eapply elem_of_sublist.
Qed.

Section NothingRemoved.
Variable sha256 : bytes → digest.
Variable rglob : filesystem → path → list path.

Lemma run_call_file_data c s :
  file_data (disk s) `prefix_of` file_data (disk (run_call sha256 rglob c s)).
Proof.
  destruct c as [now target| |n out|n|]; cbn [run_call].
  - destruct (snapshot sha256 rglob now target s) as [[id|e] s'] eqn:Hrun; cbn [snd].
    + apply snapshot_rows_committed in Hrun as (_ & _ & _ & ->).
      apply add_blobs_prefix.
    + apply snapshot_raise_disk in Hrun. by rewrite Hrun.
  - by rewrite list_snapshots_disk.
  - by rewrite restore_disk.
  - rewrite prune_run. cbn [snd]. change (disk (put_line ?l ?s)) with (disk s).
    by rewrite committed_disk.
  - by rewrite check_run.
Qed.

End NothingRemoved.

(** ** A snapshot and the listing *)

Section SnapshotListing.
Variable sha256 : bytes → digest.
Variable rglob : filesystem → path → list path.

(** X21 — a snapshot adds one row at the end of what [list_snapshots]
    shows and changes none of the rows above it: the earlier snapshots
    keep their ids, timestamps and total sizes. *)
Theorem snapshot_adds_one_listing_row now target s id s' :
  snapshot sha256 rglob now target s = (Ok id, s') →
  snapshot_rows (disk s') =
  snapshot_rows (disk s) ++ [(id, now, total_size (disk s') id)].
Proof.
  intros Hrun.
  pose proof (snapshot_disk _ _ _ _ _ _ _ Hrun) as (Hid & _ & _).
  apply snapshot_rows_committed in Hrun as (Hsnaps & _ & Hfiles & _).
  unfold snapshot_rows. rewrite Hsnaps, fmap_app. f_equal.
  apply list_fmap_ext. intros i r Hr. f_equal.
  unfold total_size, files_of. rewrite Hfiles, filter_app.
  assert (Hold : s_id r ≠ id).
  { assert (Hin : s_id r ∈ s_id <$> snapshots (disk s)).
    { apply list_elem_of_fmap. exists r. split; [done|].
      by eapply list_elem_of_lookup_2. }
    apply max_id_bound in Hin. unfold next_id in Hid. lia. }
  pose proof (walk_rows_snapshot_id sha256 (fs s) target id (rglob (fs s) target)) as Hall.
  assert (Hnone : filter (λ r0, f_snapshot_id r0 = s_id r)
                    (walk_rows sha256 (fs s) target id (rglob (fs s) target)) = []).
  { clear Hfiles. induction Hall as [|r0 rows Hr0 _ IH]; [done|].
    rewrite filter_cons_False; [done|]. congruence. }
  by rewrite Hnone, app_nil_r.
Qed.
End SnapshotListing.

(** * The methods at work on a small store *)

Lemma entries_below_complete : rglob_complete entries_below.
Proof. by intros fs root. Qed.

Ltac by_computation := apply (bool_decide_unpack _); vm_compute; exact I.

(** Known answers of SHA-256 (FIPS 180-4): the empty message and ["abc"]. *)
Example sha256_empty :
  SHA256.hexdigest [] =
  "e3b0c44298fc1c149afbf4c8996fb92427ae41e4649b934ca495991b7852b855".
Proof. vm_compute. reflexivity. Qed.

Example sha256_abc :
  SHA256.hexdigest (demo_bytes "abc") =
  "ba7816bf8f01cfea414140de5dae2223b00361a396177a9cb410ff61f20015ad".
Proof. vm_compute. reflexivity. Qed.

Example demo_snapshot_keys :
  keys (disk demo_snapshot.2) =
  [demo_hello; demo_test; demo_binary].
Proof. vm_compute. reflexivity. Qed.

Lemma demo_snapshot_eq :
  snapshot SHA256.hexdigest entries_below demo_now ["data"] demo_state
  = (Ok 1, demo_snapshot.2).
Proof. vm_compute. reflexivity. Qed.


Lemma demo_journal :
  journal demo_snapshot.2 =
  [InsertSnapshot {| s_id := 1; s_timestamp := demo_now |};
   InsertFile {| f_snapshot_id := 1; f_path := ["sub"; "copy.txt"];
                 f_hash := demo_hello; f_size := 11 |};
   InsertFileData {| b_hash := demo_hello; b_content := demo_bytes "Hello World";
                     b_size := 11 |};
   InsertFile {| f_snapshot_id := 1; f_path := ["file2.txt"];
                 f_hash := demo_test; f_size := 16 |};
   InsertFileData {| b_hash := demo_test; b_content := demo_bytes "Backup Tool Test";
                     b_size := 16 |};
   InsertFile {| f_snapshot_id := 1; f_path := ["file1.txt"];
                 f_hash := demo_hello; f_size := 11 |};
   InsertFile {| f_snapshot_id := 1; f_path := ["sub"; "image.bin"];
                 f_hash := demo_binary; f_size := 3 |};
   InsertFileData {| b_hash := demo_binary;
                     b_content := [Byte.x00; Byte.xff; Byte.x80]; b_size := 3 |};
   Commit].
Proof. vm_compute. reflexivity. Qed.






Lemma demo_restored_eq :
  restore 1 ["restore"] demo_blob_lost = (Ok tt, demo_restored).
Proof. vm_compute. reflexivity. Qed.



(** Witness of C6: pruning the only snapshot of the demo store keeps its
    blobs and [check] still succeeds; pruning an unknown id changes nothing. *)
Lemma prune_postcondition_witness :
  file_data (disk demo_pruned) = file_data (disk demo_snapshot.2) ∧
  stdout (check SHA256.hexdigest demo_pruned).2 =
    stdout demo_pruned ++ ["All files verified successfully."] ∧
  disk (prune 7 demo_snapshot.2).2 = disk demo_snapshot.2.
Proof.
  assert (Hone : bindable 1) by by_computation.
  assert (Hseven : bindable 7) by by_computation.
  pose proof (prune_postcondition SHA256.hexdigest 1 demo_snapshot.2 Hone)
    as (_ & _ & _ & _ & _ & Hdata & _ & Hcheck & _).
  pose proof (prune_postcondition SHA256.hexdigest 7 demo_snapshot.2 Hseven)
    as (_ & _ & _ & _ & _ & _ & _ & _ & Hnoop).
  split; [exact Hdata|]. split.
  - apply Hcheck. by_computation.
  - apply Hnoop; by_computation.
Defined.

(** Witness of C7: after the bytes under one key have changed, [check]
    names that key; on the intact store it reports success. *)
Lemma check_reports_first_mismatch_witness :
  stdout (check SHA256.hexdigest demo_bit_rot).2 =
    stdout demo_bit_rot ++ ["Corruption detected for hash: " +:+ demo_test] ∧
  stdout (check SHA256.hexdigest demo_snapshot.2).2 =
    stdout demo_snapshot.2 ++ ["All files verified successfully."].
Proof.
  pose proof (check_reports_first_mismatch SHA256.hexdigest demo_bit_rot)
    as (_ & _ & Hone & _).
  pose proof (check_reports_first_mismatch SHA256.hexdigest demo_snapshot.2)
    as (_ & _ & _ & Hnone).
  split.
  - apply Hone; by_computation.
  - apply Hnone. by_computation.
Defined.



(** ** The further properties on the small store *)

Lemma demo_twice_eq :
  snapshot SHA256.hexdigest entries_below "2024-01-02 00:00:00" ["data"]
    demo_snapshot.2 = (Ok 2, demo_twice).
Proof. vm_compute. reflexivity. Qed.

Lemma demo_reachable : reachable SHA256.hexdigest entries_below demo_snapshot.2.
Proof.
  apply (reachable_call SHA256.hexdigest entries_below
           (CallSnapshot demo_now ["data"]) demo_state).
  apply reachable_new. reflexivity.
Qed.

Lemma demo_restored_all_eq :
  restore 1 ["restore"] demo_snapshot.2 = (Ok tt, demo_restored_all).
Proof. vm_compute. reflexivity. Qed.

Lemma demo_initialised_eq : _init_db [] demo_state = (Ok tt, demo_initialised).
Proof. vm_compute. reflexivity. Qed.

(** Witness of X2: with the ids used up [snapshot] raises and leaves the
    store as it is; on the new store it returns id 1. *)
Lemma snapshot_when_ids_are_used_up_witness :
  (∃ s', snapshot SHA256.hexdigest entries_below demo_now ["data"] demo_ids_used_up
           = (Raise DatabaseError, s') ∧
     disk s' = disk demo_ids_used_up ∧ fs s' = fs demo_ids_used_up ∧
     stdout s' = stdout demo_ids_used_up ∧ journal s' = journal demo_ids_used_up) ∧
  (0 < MAX_ROWID ∧ 1 = 0 + 1).
Proof.
  split.
  - apply (proj1 (snapshot_when_ids_are_used_up SHA256.hexdigest entries_below
                    demo_now ["data"] demo_ids_used_up)).
    vm_compute. discriminate.
  - exact (proj2 (snapshot_when_ids_are_used_up SHA256.hexdigest entries_below
                    demo_now ["data"] demo_state) 1 demo_snapshot.2 demo_snapshot_eq).
Defined.

(** Witness of X3: the second snapshot of the demo tree. *)
Lemma snapshot_only_appends_witness :
  snapshots (disk demo_snapshot.2) `prefix_of` snapshots (disk demo_twice) ∧
  files (disk demo_snapshot.2) `prefix_of` files (disk demo_twice) ∧
  file_data (disk demo_snapshot.2) `prefix_of` file_data (disk demo_twice) ∧
  fs demo_twice = fs demo_snapshot.2.
Proof.
  exact (snapshot_only_appends SHA256.hexdigest entries_below
           "2024-01-02 00:00:00" ["data"] demo_snapshot.2 2 demo_twice
           demo_twice_eq).
Defined.


(** Witness of X5: the demo snapshot prints the total of its rows. *)
Lemma snapshot_prints_listed_total_witness :
  stdout demo_snapshot.2 =
  stdout demo_state ++ [snapshot_message 1 (total_size (disk demo_snapshot.2) 1)].
Proof.
  apply (snapshot_prints_listed_total SHA256.hexdigest entries_below demo_now
           ["data"] demo_state 1 demo_snapshot.2).
  - by_computation.
  - exact demo_snapshot_eq.
Defined.


(** Witness of X7: the demo store has no snapshot 7. *)
Lemma restore_of_unknown_snapshot_witness :
  let r := restore 7 ["restore"] demo_snapshot.2 in
  let r' := (makedirs ["restore"] ≫= λ _, print (restore_message 7 ["restore"]))
              demo_snapshot.2 in
  r.1 = r'.1 ∧ fs r.2 = fs r'.2 ∧ stdout r.2 = stdout r'.2 ∧
  disk r.2 = disk demo_snapshot.2.
Proof.
  apply (restore_of_unknown_snapshot 7 ["restore"] demo_snapshot.2); by_computation.
Defined.

(** Witness of X8: snapshot 1 of the demo store, pruned and then restored. *)
Lemma restore_after_prune_witness :
  let r := restore 1 ["restore"] (prune 1 demo_snapshot.2).2 in
  let r' := (makedirs ["restore"] ≫= λ _, print (restore_message 1 ["restore"]))
              (prune 1 demo_snapshot.2).2 in
  r.1 = r'.1 ∧ fs r.2 = fs r'.2 ∧ stdout r.2 = stdout r'.2.
Proof.
  apply (restore_after_prune 1 ["restore"] demo_snapshot.2). by_computation.
Defined.

(** Witness of X9: [/notes.txt] is a regular file. *)
Lemma restore_into_blocked_destination_witness :
  restore 1 ["notes.txt"; "out"] demo_snapshot.2 = (Raise OSError, demo_snapshot.2).
Proof.
  apply (restore_into_blocked_destination 1 ["notes.txt"; "out"] demo_snapshot.2
           ["notes.txt"]).
  - by exists ["out"].
  - vm_compute. reflexivity.
Defined.

(** Witness of X10: snapshot 1 of the store with two snapshots, before and
    after snapshot 2 is pruned. *)
Lemma restore_unaffected_by_prune_witness :
  (restore 1 ["restore"] (prune 2 demo_two_snapshots).2).1 =
    (restore 1 ["restore"] demo_two_snapshots).1 ∧
  fs (restore 1 ["restore"] (prune 2 demo_two_snapshots).2).2 =
    fs (restore 1 ["restore"] demo_two_snapshots).2.
Proof.
  apply (restore_unaffected_by_prune 1 2 ["restore"] demo_two_snapshots).
  discriminate.
Defined.

(** Witness of X11: snapshot 1 of the demo store, before and after the
    second snapshot. *)
Lemma restore_unaffected_by_later_snapshot_witness :
  (restore 1 ["restore"] demo_twice).1 = (restore 1 ["restore"] demo_snapshot.2).1 ∧
  fs (restore 1 ["restore"] demo_twice).2 = fs (restore 1 ["restore"] demo_snapshot.2).2.
Proof.
  apply (restore_unaffected_by_later_snapshot SHA256.hexdigest entries_below
           "2024-01-02 00:00:00" ["data"] 1 ["restore"] demo_snapshot.2 2 demo_twice).
  - exact demo_twice_eq.
  - discriminate.
  - assert (Hall : Forall (λ e, e.2 ∈ keys (disk demo_snapshot.2))
                     (snapshot_entries (disk demo_snapshot.2) 1)) by by_computation.
    intros rel h Hin. exact (proj1 (Forall_forall _ _) Hall (rel, h) Hin).
Defined.




(** Witness of X16: [_init_db] in the root directory, twice; and in
    [/notes.txt], which is a regular file. *)
Lemma init_db_again_witness :
  _init_db [] demo_initialised = (Ok tt, demo_initialised) ∧
  _init_db ["notes.txt"] demo_state = (Raise OSError, demo_state).
Proof.
  split.
  - exact (proj1 (proj2 (init_db_again [] demo_state))
             demo_initialised demo_initialised_eq).
  - apply (proj2 (proj2 (init_db_again ["notes.txt"] demo_state)) ["notes.txt"]).
    + by exists [SNAPSHOT_DIR].
    + vm_compute. reflexivity.
Defined.


(** Witness of X18: [check] and no command, run in the root directory. *)
Lemma main_runs_the_method_witness :
  main SHA256.hexdigest entries_below [] demo_now ["usage"] CmdCheck demo_initialised
    = check SHA256.hexdigest demo_initialised ∧
  main SHA256.hexdigest entries_below [] demo_now ["usage"] CmdNone demo_initialised
    = (Ok tt, put_lines ["usage"] demo_initialised).
Proof.
  pose proof (main_runs_the_method SHA256.hexdigest entries_below [] demo_now
                ["usage"] demo_state demo_initialised demo_initialised_eq)
    as (_ & _ & _ & Hcheck & _ & Hnone).
  split; [exact Hcheck|exact Hnone].
Defined.

(** Witness of X19: [check] on the store that lost the blob of
    [file2.txt]. *)
Lemma check_blind_to_lost_blobs_witness :
  check SHA256.hexdigest demo_blob_lost =
  (Ok tt, put_line "All files verified successfully." (_connect demo_blob_lost)).
Proof.
  apply (check_blind_to_lost_blobs SHA256.hexdigest demo_snapshot.2 demo_blob_lost).
  - by_computation.
  - exact (sublist_filter (λ r, b_hash r ≠ demo_test) (file_data (disk demo_snapshot.2))).
Defined.

(** Witness of X21: the listing after the second snapshot of the demo
    tree. *)
Lemma snapshot_adds_one_listing_row_witness :
  snapshot_rows (disk demo_twice) =
  snapshot_rows (disk demo_snapshot.2) ++
    [(2, "2024-01-02 00:00:00", total_size (disk demo_twice) 2)].
Proof.
  exact (snapshot_adds_one_listing_row SHA256.hexdigest entries_below
           "2024-01-02 00:00:00" ["data"] demo_snapshot.2 2 demo_twice
           demo_twice_eq).
Defined.
